(** * Uneventful: the Dashboard component

    A shallow embedding of the state logic of
    [frontend/src/components/Dashboard.tsx]: the calendar and event
    loaders, the client-side search filter, the selection handlers and the
    multi-calendar delete handler, with the chips' event counts and the
    keyboard shortcuts of [hooks/useKeyboardShortcuts].

    Conventions.
    - A JavaScript string is the list of its UTF-16 code units.
    - A [Set<string>] is the list of its members in insertion order; a
      [Map<string, V>] is an association list in insertion order.  Both
      orders are observable in the source ([for ... of] loops).
    - An optional field ([x?: T], [T | null]) is an [option].
    - The values read by an event handler are those of the render that
      created it (the snapshot); the [setX] calls build the next state.
    - The remote API is a state-passing oracle: each call takes the server
      state and returns the next one together with a result or the error
      thrown.  Calls are recorded in a trace of effects.
    - Analytics calls and console logging have no influence on the state
      and are left out. *)

From Stdlib Require Import List ZArith NArith Lia Bool Ascii String.
From Stdlib Require Import Permutation Sorted.
Import ListNotations.
Local Open Scope Z_scope.
Local Open Scope list_scope.

(* ================================================================== *)
(** ** JavaScript strings *)

Module JsString.

Definition str := list N.

(** Code units of an ASCII literal. *)
Fixpoint u (s : string) : str :=
  match s with
  | EmptyString => []
  | String c rest => N_of_ascii c :: u rest
  end.

Fixpoint str_eqb (s t : str) : bool :=
  match s, t with
  | [], [] => true
  | a :: s', b :: t' => N.eqb a b && str_eqb s' t'
  | _, _ => false
  end.

(** A string is truthy iff it is not empty. *)
Definition truthy (s : str) : bool :=
  match s with [] => false | _ :: _ => true end.

(** [a || b] on optional strings: [undefined], [null] and [''] are falsy. *)
Definition or_else (a b : option str) : option str :=
  match a with
  | Some (c :: s) => Some (c :: s)
  | _ => b
  end.

(** [a || ''] *)
Definition or_empty (a : option str) : str :=
  match a with
  | Some (c :: s) => c :: s
  | _ => []
  end.

Fixpoint startsWith (s t : str) : bool :=
  match t with
  | [] => true
  | b :: t' =>
      match s with
      | [] => false
      | a :: s' => N.eqb a b && startsWith s' t'
      end
  end.

(** [s.includes(t)] *)
Fixpoint includes (s t : str) : bool :=
  startsWith s t ||
  match s with
  | [] => false
  | _ :: s' => includes s' t
  end.

(** [s.replace(/[\u0300-\u036f]/g, '')] *)
Definition isCombiningMark (c : N) : bool :=
  (N.leb 768 c && N.leb c 879)%N.

Definition stripCombiningMarks (s : str) : str :=
  List.filter (fun c => negb (isCombiningMark c)) s.

(** Comparison of code units, position by position: the order that
    [localeCompare] gives to two start strings of one format, and to a
    string and its extensions. *)
Fixpoint codeUnitCompare (s t : str) : Z :=
  match s, t with
  | [], [] => 0
  | [], _ :: _ => -1
  | _ :: _, [] => 1
  | a :: s', b :: t' =>
      match N.compare a b with
      | Lt => -1
      | Gt => 1
      | Eq => codeUnitCompare s' t'
      end
  end.

End JsString.
Import JsString.

(* ================================================================== *)
(** ** JavaScript sets and maps keyed by strings *)

Module JsSet.

Definition t := list str.

Definition has (s : t) (x : str) : bool := existsb (str_eqb x) s.

Definition add (s : t) (x : str) : t :=
  if has s x then s else s ++ [x].

Definition delete (s : t) (x : str) : t :=
  List.filter (fun y => negb (str_eqb x y)) s.

Definition size (s : t) : nat := List.length s.

(** [new Set(iterable)] *)
Definition of_list (l : list str) : t := fold_left add l [].

End JsSet.

Module JsMap.

Definition t (V : Type) := list (str * V).

Fixpoint get {V} (m : t V) (k : str) : option V :=
  match m with
  | [] => None
  | (k', v) :: m' => if str_eqb k' k then Some v else get m' k
  end.

(** [m.set(k, v)]: an existing key keeps its place, a new one goes last. *)
Fixpoint set {V} (m : t V) (k : str) (v : V) : t V :=
  match m with
  | [] => [(k, v)]
  | (k', v') :: m' =>
      if str_eqb k' k then (k', v) :: m' else (k', v') :: set m' k v
  end.

End JsMap.

(* ================================================================== *)
(** ** [Array.prototype.sort]

    The sort is stable (ECMAScript 2019).  For a consistent comparator
    the result is determined; it is computed here by a stable insertion
    sort.  The comparator returns a number whose sign is the order. *)

Module JsArray.

Section Sort.
Context {A : Type}.
Variable compareFn : A -> A -> Z.

(** [x] stood before the elements of [l] in the input: it goes before
    the first element that it does not compare above. *)
Fixpoint insert (x : A) (l : list A) : list A :=
  match l with
  | [] => [x]
  | y :: l' =>
      if compareFn x y <=? 0 then x :: y :: l' else y :: insert x l'
  end.

Fixpoint sort (l : list A) : list A :=
  match l with
  | [] => []
  | x :: l' => insert x (sort l')
  end.

(** What the language asks of a comparator for the order to be defined:
    a total preorder given by the sign. *)
Record consistent : Prop := {
  cmp_flip : forall a b, compareFn a b < 0 <-> 0 < compareFn b a;
  cmp_trans : forall a b c,
      compareFn a b <= 0 -> compareFn b c <= 0 -> compareFn a c <= 0
}.

End Sort.

(** [arr.find(p)] is [List.find]. *)

End JsArray.

(* ================================================================== *)
(** ** Data model ([frontend/src/types], as the component uses it) *)

Record Calendar := {
  cal_id : str;
  cal_summary : option str;
  summaryOverride : option str;
  primary : bool;                  (* [primary?: boolean], absent = false *)
  backgroundColor : option str
}.

Record EventStart := {
  dateTime : option str;
  date : option str
}.

Record CalendarEvent := {
  id : str;
  summary : option str;
  description : option str;
  location : option str;
  start : EventStart;
  calendarId : str;
  calendarColor : option str
}.

(** [{ ...event, calendarId, calendarColor: calendar?.backgroundColor }] *)
Definition tagEvent (cid : str) (calendar : option Calendar)
    (event : CalendarEvent) : CalendarEvent :=
  {| id := id event;
     summary := summary event;
     description := description event;
     location := location event;
     start := start event;
     calendarId := cid;
     calendarColor :=
       match calendar with
       | Some c => backgroundColor c
       | None => None
       end |}.

Inductive ApiError :=
| AuthError (code : str)
| OtherError.

(** [error instanceof AuthError && error.code === 'TOKEN_EXPIRED'] *)
Definition isTokenExpired (e : ApiError) : bool :=
  match e with
  | AuthError code => str_eqb code (u "TOKEN_EXPIRED")
  | OtherError => false
  end.

Record DeleteResult := {
  succeeded : Z;
  failed : Z
}.

Inductive ToastType := success | error | info.

(** The toast messages; a template literal keeps its interpolated counts. *)
Inductive ToastMessage :=
| MsgSessionExpired
| MsgLoadFailed
| MsgDeletedWithFailures (totalSucceeded totalFailed : Z)
| MsgDeleted (totalSucceeded : Z)
| MsgDeleteFailed.

Record Toast := {
  message : ToastMessage;
  type : ToastType
}.

Inductive Effect :=
| CallGetCalendars
| CallGetEvents (cid : str) (maxResults : Z) (tmin : str) (tmax : option str)
| CallDeleteEvents (cid : str) (eventIds : list str)
| ScheduleLogout.

(** The [useState] cells of the component that its loaders and handlers
    read or write (the flags of the About and shortcuts modals are not
    among them). *)
Record DashState := {
  calendars : list Calendar;
  selectedCalendarIds : JsSet.t;
  events : list CalendarEvent;
  selectedIds : JsSet.t;
  loading : bool;
  showDeleteModal : bool;
  deleting : bool;
  toast : option Toast;
  timeMin : str;
  timeMax : option str;
  searchQuery : str
}.

Definition setCalendars v st :=
  {| calendars := v; selectedCalendarIds := selectedCalendarIds st;
     events := events st; selectedIds := selectedIds st;
     loading := loading st; showDeleteModal := showDeleteModal st;
     deleting := deleting st; toast := toast st; timeMin := timeMin st;
     timeMax := timeMax st; searchQuery := searchQuery st |}.

Definition setSelectedCalendarIds v st :=
  {| calendars := calendars st; selectedCalendarIds := v;
     events := events st; selectedIds := selectedIds st;
     loading := loading st; showDeleteModal := showDeleteModal st;
     deleting := deleting st; toast := toast st; timeMin := timeMin st;
     timeMax := timeMax st; searchQuery := searchQuery st |}.

Definition setEvents v st :=
  {| calendars := calendars st; selectedCalendarIds := selectedCalendarIds st;
     events := v; selectedIds := selectedIds st;
     loading := loading st; showDeleteModal := showDeleteModal st;
     deleting := deleting st; toast := toast st; timeMin := timeMin st;
     timeMax := timeMax st; searchQuery := searchQuery st |}.

Definition setSelectedIds v st :=
  {| calendars := calendars st; selectedCalendarIds := selectedCalendarIds st;
     events := events st; selectedIds := v;
     loading := loading st; showDeleteModal := showDeleteModal st;
     deleting := deleting st; toast := toast st; timeMin := timeMin st;
     timeMax := timeMax st; searchQuery := searchQuery st |}.

Definition setLoading v st :=
  {| calendars := calendars st; selectedCalendarIds := selectedCalendarIds st;
     events := events st; selectedIds := selectedIds st;
     loading := v; showDeleteModal := showDeleteModal st;
     deleting := deleting st; toast := toast st; timeMin := timeMin st;
     timeMax := timeMax st; searchQuery := searchQuery st |}.

Definition setShowDeleteModal v st :=
  {| calendars := calendars st; selectedCalendarIds := selectedCalendarIds st;
     events := events st; selectedIds := selectedIds st;
     loading := loading st; showDeleteModal := v;
     deleting := deleting st; toast := toast st; timeMin := timeMin st;
     timeMax := timeMax st; searchQuery := searchQuery st |}.

Definition setDeleting v st :=
  {| calendars := calendars st; selectedCalendarIds := selectedCalendarIds st;
     events := events st; selectedIds := selectedIds st;
     loading := loading st; showDeleteModal := showDeleteModal st;
     deleting := v; toast := toast st; timeMin := timeMin st;
     timeMax := timeMax st; searchQuery := searchQuery st |}.

Definition setToast v st :=
  {| calendars := calendars st; selectedCalendarIds := selectedCalendarIds st;
     events := events st; selectedIds := selectedIds st;
     loading := loading st; showDeleteModal := showDeleteModal st;
     deleting := deleting st; toast := v; timeMin := timeMin st;
     timeMax := timeMax st; searchQuery := searchQuery st |}.

Definition setTimeMin v st :=
  {| calendars := calendars st; selectedCalendarIds := selectedCalendarIds st;
     events := events st; selectedIds := selectedIds st;
     loading := loading st; showDeleteModal := showDeleteModal st;
     deleting := deleting st; toast := toast st; timeMin := v;
     timeMax := timeMax st; searchQuery := searchQuery st |}.

Definition setTimeMax v st :=
  {| calendars := calendars st; selectedCalendarIds := selectedCalendarIds st;
     events := events st; selectedIds := selectedIds st;
     loading := loading st; showDeleteModal := showDeleteModal st;
     deleting := deleting st; toast := toast st; timeMin := timeMin st;
     timeMax := v; searchQuery := searchQuery st |}.

Definition setSearchQuery v st :=
  {| calendars := calendars st; selectedCalendarIds := selectedCalendarIds st;
     events := events st; selectedIds := selectedIds st;
     loading := loading st; showDeleteModal := showDeleteModal st;
     deleting := deleting st; toast := toast st; timeMin := timeMin st;
     timeMax := timeMax st; searchQuery := v |}.

(** What an awaited API call yields: a value, or the error it throws. *)
Inductive Outcome (A : Type) :=
| Returned (a : A)
| Thrown (e : ApiError).
Arguments Returned {A} a.
Arguments Thrown {A} e.

(* ================================================================== *)
(** ** A concrete runtime, used to run the component on examples

    The theorems hold for every runtime; the examples need one. *)

Module Latin1.

(** Canonical decompositions of the Latin-1 capital letters: code unit,
    base letter, combining mark. *)
Definition capitals : list (N * (N * N)) :=
  [ (192, (65, 768)); (193, (65, 769)); (194, (65, 770)); (195, (65, 771));
    (196, (65, 776)); (197, (65, 778)); (199, (67, 807)); (200, (69, 768));
    (201, (69, 769)); (202, (69, 770)); (203, (69, 776)); (204, (73, 768));
    (205, (73, 769)); (206, (73, 770)); (207, (73, 776)); (209, (78, 771));
    (210, (79, 768)); (211, (79, 769)); (212, (79, 770)); (213, (79, 771));
    (214, (79, 776)); (217, (85, 768)); (218, (85, 769)); (219, (85, 770));
    (220, (85, 776)); (221, (89, 769)) ]%N.

Fixpoint lookup (c : N) (table : list (N * (N * N))) : option (N * N) :=
  match table with
  | [] => None
  | (k, v) :: rest => if N.eqb k c then Some v else lookup c rest
  end.

(** The small letters sit 32 places after the capitals, and so do their
    bases; U+00FF is y with diaeresis. *)
Definition decompose (c : N) : list N :=
  match lookup c capitals with
  | Some (base, mark) => [base; mark]
  | None =>
      if N.eqb c 255 then [121; 776]%N
      else if N.leb 224 c
      then match lookup (c - 32) capitals with
           | Some (base, mark) => [(base + 32)%N; mark]
           | None => [c]
           end
      else [c]
  end.

(** [normalize('NFD')] on text of Basic Latin and Latin-1 Supplement
    letters; other code units are kept. *)
Definition normalizeNFD (s : str) : str := flat_map decompose s.

Definition lowerCodeUnit (c : N) : N :=
  if (N.leb 65 c && N.leb c 90)%bool then (c + 32)%N
  else if (N.leb 192 c && N.leb c 222 && negb (N.eqb c 215))%bool
  then (c + 32)%N
  else c.

Definition toLowerCase (s : str) : str := map lowerCodeUnit s.

(** Modelled from the spec: [utils/stripHtml] is not among the sources;
    the description is compared as plain text, any markup stripped.
    Here: everything from a [<] to the next [>] is dropped.  The
    component below takes [stripHtml] as a parameter; this one only runs
    the examples. *)
Fixpoint stripTags (inTag : bool) (s : str) : str :=
  match s with
  | [] => []
  | c :: rest =>
      if inTag
      then stripTags (negb (N.eqb c 62)) rest
      else if N.eqb c 60 then stripTags true rest
      else c :: stripTags false rest
  end.

Definition stripHtml (s : str) : str := stripTags false s.

End Latin1.

(** An API held in memory: per calendar its events; calendars whose
    calls are rejected with an expired token; events the provider refuses
    to delete.  The time window is not applied. *)
Module MemoryApi.

Record Server := {
  store : list (str * list CalendarEvent);
  rejected : list str;
  undeletable : list str
}.

Definition eventsOf (srv : Server) (cid : str) : list CalendarEvent :=
  match JsMap.get (store srv) cid with
  | Some l => l
  | None => []
  end.

Definition tokenExpired : ApiError := AuthError (u "TOKEN_EXPIRED").

Definition getCalendars (cals : list Calendar) (srv : Server)
    : Server * Outcome (list Calendar) :=
  (srv, Returned cals).

Definition getEvents (srv : Server) (cid : str) (maxResults : Z)
    (tmin : str) (tmax : option str)
    : Server * Outcome (list CalendarEvent) :=
  if JsSet.has (rejected srv) cid then (srv, Thrown tokenExpired)
  else (srv, Returned (firstn (Z.to_nat maxResults) (eventsOf srv cid))).

Definition deletable (srv : Server) (cid : str) (eventId : str) : bool :=
  existsb (fun e => str_eqb (id e) eventId) (eventsOf srv cid)
  && negb (JsSet.has (undeletable srv) eventId).

Definition deleteEvents (srv : Server) (cid : str) (eventIds : list str)
    : Server * Outcome DeleteResult :=
  if JsSet.has (rejected srv) cid then (srv, Thrown tokenExpired)
  else
    let gone := List.filter (deletable srv cid) eventIds in
    let kept :=
      List.filter (fun e => negb (JsSet.has gone (id e))) (eventsOf srv cid) in
    ({| store := JsMap.set (store srv) cid kept;
        rejected := rejected srv;
        undeletable := undeletable srv |},
     Returned
       {| succeeded := Z.of_nat (List.length gone);
          failed := Z.of_nat (List.length eventIds)
                    - Z.of_nat (List.length gone) |}).

End MemoryApi.

(* ================================================================== *)
(** ** Start times as the specification reads them

    The specification orders events by start timestamp, a date-only start
    counting as midnight of that date.  [instant] reads an RFC 3339 start
    string ([YYYY-MM-DD], or [YYYY-MM-DDTHH:MM:SS] followed by [Z] or by
    an offset [+HH:MM] / [-HH:MM]) as seconds since 1970-01-01T00:00:00Z;
    a date alone is its midnight, read without offset. *)

Module SpecTime.

Definition digitAt (s : str) (i : nat) : option Z :=
  match nth_error s i with
  | Some c =>
      if (N.leb 48 c && N.leb c 57)%bool then Some (Z.of_N c - 48) else None
  | None => None
  end.

(** The number written in the [n] digits from position [i]. *)
Fixpoint number (s : str) (i n : nat) (acc : Z) : option Z :=
  match n with
  | O => Some acc
  | S n' =>
      match digitAt s i with
      | Some d => number s (S i) n' (10 * acc + d)
      | None => None
      end
  end.

Definition isAt (s : str) (i : nat) (c : N) : bool :=
  match nth_error s i with
  | Some c' => N.eqb c c'
  | None => false
  end.

(** Days from 1970-01-01 to the given day of the Gregorian calendar. *)
Definition daysFromCivil (y m d : Z) : Z :=
  let y' := if m <=? 2 then y - 1 else y in
  let era := y' / 400 in
  let yoe := y' - era * 400 in
  let mp := if 2 <? m then m - 3 else m + 9 in
  let doy := (153 * mp + 2) / 5 + d - 1 in
  let doe := yoe * 365 + yoe / 4 - yoe / 100 + doy in
  era * 146097 + doe - 719468.

Definition dateSeconds (s : str) : option Z :=
  match number s 0 4 0, number s 5 2 0, number s 8 2 0 with
  | Some y, Some m, Some d =>
      if (isAt s 4 45 && isAt s 7 45)%bool
      then Some (86400 * daysFromCivil y m d)
      else None
  | _, _, _ => None
  end.

Definition clockSeconds (s : str) : option Z :=
  match number s 11 2 0, number s 14 2 0, number s 17 2 0 with
  | Some h, Some mi, Some sec =>
      if (isAt s 10 84 && isAt s 13 58 && isAt s 16 58)%bool
      then Some (3600 * h + 60 * mi + sec)
      else None
  | _, _, _ => None
  end.

Definition offsetSeconds (s : str) : option Z :=
  if (isAt s 19 90 && Nat.eqb (List.length s) 20)%bool then Some 0
  else
    match number s 20 2 0, number s 23 2 0 with
    | Some h, Some mi =>
        if (isAt s 22 58 && Nat.eqb (List.length s) 25)%bool
        then
          if isAt s 19 43 then Some (3600 * h + 60 * mi)
          else if isAt s 19 45 then Some (- (3600 * h + 60 * mi))
          else None
        else None
    | _, _ => None
    end.

Definition instant (s : str) : option Z :=
  if Nat.eqb (List.length s) 10 then dateSeconds s
  else
    match dateSeconds s, clockSeconds s, offsetSeconds s with
    | Some d, Some c, Some o => Some (d + c - o)
    | _, _, _ => None
    end.

End SpecTime.

(* ================================================================== *)
(** ** Start strings as the provider writes them *)

(** RFC 3339 text: [YYYY-MM-DD] for an all-day event; for a timed event
    the date, [THH:MM:SS] and the UTC offset, [Z] or [+HH:MM] / [-HH:MM].
    A text is given by its digits. *)

Module StartText.

(** The code unit of a decimal digit. *)
Definition digit (v : N) : N := (48 + v)%N.

Record DateDigits := {
  y1 : N; y2 : N; y3 : N; y4 : N;
  m1 : N; m2 : N;
  d1 : N; d2 : N
}.

Record ClockDigits := {
  h1 : N; h2 : N;
  mi1 : N; mi2 : N;
  s1 : N; s2 : N
}.

Definition dateText (D : DateDigits) : str :=
  [digit (y1 D); digit (y2 D); digit (y3 D); digit (y4 D); 45%N;
   digit (m1 D); digit (m2 D); 45%N; digit (d1 D); digit (d2 D)].

Definition clockText (C : ClockDigits) : str :=
  [84%N; digit (h1 C); digit (h2 C); 58%N; digit (mi1 C); digit (mi2 C);
   58%N; digit (s1 C); digit (s2 C)].

Definition isDigit (v : N) : bool := N.leb v 9.

Definition yearOf (D : DateDigits) : Z :=
  1000 * Z.of_N (y1 D) + 100 * Z.of_N (y2 D) + 10 * Z.of_N (y3 D)
  + Z.of_N (y4 D).
Definition monthOf (D : DateDigits) : Z := 10 * Z.of_N (m1 D) + Z.of_N (m2 D).
Definition dayOf (D : DateDigits) : Z := 10 * Z.of_N (d1 D) + Z.of_N (d2 D).

Definition leapYear (y : Z) : bool :=
  ((y mod 4 =? 0) && negb (y mod 100 =? 0)) || (y mod 400 =? 0).

Definition daysInMonth (y m : Z) : Z :=
  if m =? 2 then (if leapYear y then 29 else 28)
  else if (m =? 4) || (m =? 6) || (m =? 9) || (m =? 11) then 30
  else 31.

(** A day of the Gregorian calendar. *)
Definition validDate (D : DateDigits) : bool :=
  isDigit (y1 D) && isDigit (y2 D) && isDigit (y3 D) && isDigit (y4 D)
  && isDigit (m1 D) && isDigit (m2 D) && isDigit (d1 D) && isDigit (d2 D)
  && (1 <=? monthOf D) && (monthOf D <=? 12)
  && (1 <=? dayOf D) && (dayOf D <=? daysInMonth (yearOf D) (monthOf D)).

Definition hourOf (C : ClockDigits) : Z := 10 * Z.of_N (h1 C) + Z.of_N (h2 C).
Definition minuteOf (C : ClockDigits) : Z :=
  10 * Z.of_N (mi1 C) + Z.of_N (mi2 C).
Definition secondOf (C : ClockDigits) : Z := 10 * Z.of_N (s1 C) + Z.of_N (s2 C).

Definition validClock (C : ClockDigits) : bool :=
  isDigit (h1 C) && isDigit (h2 C) && isDigit (mi1 C) && isDigit (mi2 C)
  && isDigit (s1 C) && isDigit (s2 C)
  && (hourOf C <=? 23) && (minuteOf C <=? 59) && (secondOf C <=? 59).

Definition secondsOfDay (C : ClockDigits) : Z :=
  3600 * hourOf C + 60 * minuteOf C + secondOf C.

Definition dayNumber (D : DateDigits) : Z :=
  SpecTime.daysFromCivil (yearOf D) (monthOf D) (dayOf D).

(** The date as one number, [YYYYMMDD]. *)
Definition dateNumber (D : DateDigits) : Z :=
  10000 * yearOf D + 100 * monthOf D + dayOf D.

(** Days from 1970-01-01 to the first of March of year [y]. *)
Definition marchFirst (y : Z) : Z :=
  let era := y / 400 in
  let yoe := y - era * 400 in
  era * 146097 + yoe * 365 + yoe / 4 - yoe / 100 - 719468.

Arguments marchFirst : simpl never.

(** The digits of a date and of a time of day given by numbers. *)
Definition dateOf (y m d : N) : DateDigits :=
  {| y1 := (y / 1000) mod 10; y2 := (y / 100) mod 10;
     y3 := (y / 10) mod 10; y4 := y mod 10;
     m1 := m / 10; m2 := m mod 10;
     d1 := d / 10; d2 := d mod 10 |}%N.

Definition clockOf (h mi s : N) : ClockDigits :=
  {| h1 := h / 10; h2 := h mod 10;
     mi1 := mi / 10; mi2 := mi mod 10;
     s1 := s / 10; s2 := s mod 10 |}%N.

(** The text of a UTC offset and the offset in seconds. *)
Inductive ZoneText : str -> Z -> Prop :=
| zone_utc : ZoneText [90%N] 0
| zone_east a b c d :
    isDigit a && isDigit b && isDigit c && isDigit d = true ->
    ZoneText [43%N; digit a; digit b; 58%N; digit c; digit d]
      (3600 * (10 * Z.of_N a + Z.of_N b) + 60 * (10 * Z.of_N c + Z.of_N d))
| zone_west a b c d :
    isDigit a && isDigit b && isDigit c && isDigit d = true ->
    ZoneText [45%N; digit a; digit b; 58%N; digit c; digit d]
      (- (3600 * (10 * Z.of_N a + Z.of_N b)
          + 60 * (10 * Z.of_N c + Z.of_N d))).

(** The start strings of all-day events and of timed events written with
    the offset [zoneText]. *)
Inductive WellFormed (zoneText : str) : str -> Prop :=
| wf_allDay D :
    validDate D = true -> WellFormed zoneText (dateText D)
| wf_timed D C :
    validDate D = true -> validClock C = true ->
    WellFormed zoneText (dateText D ++ clockText C ++ zoneText).

End StartText.

(** The instant of a start string where the events are written with the
    UTC offset [zone], in seconds: a date alone is midnight of that date
    at that offset. *)
Definition spec_instantAt (zone : Z) (s : str) : option Z :=
  if Nat.eqb (List.length s) 10
  then match SpecTime.dateSeconds s with
       | Some d => Some (d - zone)
       | None => None
       end
  else SpecTime.instant s.

Definition spec_startTime (zone : Z) (s : str) : Z :=
  match spec_instantAt zone s with
  | Some z => z
  | None => 0
  end.

(** An all-day start (a date alone) and a timed start. *)
Definition spec_startRank (s : str) : Z :=
  if Nat.eqb (List.length s) 10 then 0 else 1.

(** Ascending by start time; at one instant the all-day start goes
    first. *)
Definition spec_keyCompare (zone : Z) (s t : str) : Z :=
  if spec_startTime zone s =? spec_startTime zone t
  then spec_startRank s - spec_startRank t
  else spec_startTime zone s - spec_startTime zone t.

(* ================================================================== *)
(** ** Sample data for the examples *)

Module Sample.

(** "César", with U+00E9. *)
Definition Cesar : str := [67; 233; 115; 97; 114]%N.

(** U+0301, the combining acute accent, alone. *)
Definition acuteAccent : str := [769]%N.

Definition timed (eventId title when cid : str) : CalendarEvent :=
  {| id := eventId; summary := Some title; description := None;
     location := None;
     start := {| dateTime := Some when; date := None |};
     calendarId := cid; calendarColor := None |}.

Definition allDay (eventId title day cid : str) : CalendarEvent :=
  {| id := eventId; summary := Some title; description := None;
     location := None;
     start := {| dateTime := None; date := Some day |};
     calendarId := cid; calendarColor := None |}.

Definition calendar (cid name : str) (isPrimary : bool) : Calendar :=
  {| cal_id := cid; cal_summary := Some name; summaryOverride := None;
     primary := isPrimary; backgroundColor := None |}.

Definition state (cals : list Calendar) (chosen : list str)
    (evs : list CalendarEvent) (marked : list str) (query : str)
    : DashState :=
  {| calendars := cals; selectedCalendarIds := chosen; events := evs;
     selectedIds := marked; loading := false; showDeleteModal := true;
     deleting := false; toast := None; timeMin := u "2025-06-01";
     timeMax := Some (u "2025-06-15"); searchQuery := query |}.

Definition server (content : list (str * list CalendarEvent))
    (rejects locked : list str) : MemoryApi.Server :=
  {| MemoryApi.store := content; MemoryApi.rejected := rejects;
     MemoryApi.undeletable := locked |}.

(** Two calendars and a few events. *)
Definition home : Calendar := calendar (u "home") (u "Home") true.
Definition work : Calendar := calendar (u "work") (u "Work") false.

Definition lunch : CalendarEvent :=
  timed (u "x") (u "Lunch") (u "2025-06-02T12:00:00Z") (u "home").
Definition standup : CalendarEvent :=
  timed (u "a") (u "Standup") (u "2025-06-02T09:00:00Z") (u "work").
Definition cesar : CalendarEvent :=
  timed (u "c") Cesar (u "2025-06-03T10:00:00Z") (u "home").

(** An event whose title is the empty string. *)
Definition untitled : CalendarEvent :=
  timed (u "n") [] (u "2025-06-04T10:00:00Z") (u "home").

(** One event marked, then a query that hides it and shows another. *)
Definition hiddenMark : DashState :=
  state [home; work] [u "home"; u "work"] [standup; lunch] [u "x"]
    (u "stand").

Definition emptyServer : MemoryApi.Server := server [] [] [].

(** A timed event at midnight, fetched before an all-day event of the
    same date. *)
Definition midnight : CalendarEvent :=
  timed (u "t") (u "Deploy") (u "2025-06-01T00:00:00Z") (u "home").
Definition holiday : CalendarEvent :=
  allDay (u "d") (u "Holiday") (u "2025-06-01") (u "work").
Definition nine : CalendarEvent :=
  timed (u "m") (u "Review") (u "2025-06-01T09:00:00Z") (u "home").

Definition twoCalendars (evs : list CalendarEvent) : DashState :=
  state [home; work] [u "home"; u "work"] evs [] [].

Definition midnightServer : MemoryApi.Server :=
  server [(u "home", [midnight]); (u "work", [holiday])] [] [].

Definition nineServer : MemoryApi.Server :=
  server [(u "home", [nine; lunch]); (u "work", [standup; holiday])] [] [].

(** The deletion scenario of the specification: A and B in one calendar,
    C in another; the provider refuses to delete B. *)
Definition evA : CalendarEvent :=
  timed (u "A") (u "Alpha") (u "2025-06-02T08:00:00Z") (u "home").
Definition evB : CalendarEvent :=
  timed (u "B") (u "Beta") (u "2025-06-02T10:00:00Z") (u "home").
Definition evC : CalendarEvent :=
  timed (u "C") (u "Gamma") (u "2025-06-02T09:00:00Z") (u "work").

Definition threeMarked : DashState :=
  state [home; work] [u "home"; u "work"] [evA; evC; evB]
    [u "A"; u "B"; u "C"] [].

Definition refusesB : MemoryApi.Server :=
  server [(u "home", [evA; evB]); (u "work", [evC])] [] [u "B"].

(** The same, the session expired for the first calendar's calls. *)
Definition rejectsHome : MemoryApi.Server :=
  server [(u "home", [evA; evB]); (u "work", [evC])] [u "home"] [].

(** Fetched calendars: the primary one last, a renamed one first. *)
Definition renamed : Calendar :=
  {| cal_id := u "r"; cal_summary := Some (u "Zoo");
     summaryOverride := Some (u "Family"); primary := false;
     backgroundColor := None |}.

Definition fetchedCalendars : list Calendar := [work; renamed; home].

(** Two timed events written with different offsets: 10:00 at +02:00 is
    08:00 UTC, 09:00 at -05:00 is 14:00 UTC. *)
Definition cairo : CalendarEvent :=
  timed (u "e") (u "Call") (u "2025-06-01T10:00:00+02:00") (u "home").
Definition chicago : CalendarEvent :=
  timed (u "w") (u "Demo") (u "2025-06-01T09:00:00-05:00") (u "work").

Definition offsetsServer : MemoryApi.Server :=
  server [(u "home", [cairo]); (u "work", [chicago])] [] [].

(** One event marked, both events visible. *)
Definition oneOfTwoMarked : DashState :=
  state [home; work] [u "home"; u "work"] [standup; lunch] [u "x"] [].

End Sample.

(* ================================================================== *)
(** ** The keyboard hook ([hooks/useKeyboardShortcuts])

    A handler acts on the state of the component that installs the hook;
    every handler is optional ([handlers.onEscape?.()]).  [handleKeyDown]
    returns the state after the handler it called, if any, and whether
    [event.preventDefault()] was called. *)

Module KeyboardShortcuts.

Record KeyboardEvent := {
  key : str;
  metaKey : bool;
  ctrlKey : bool;
  targetTagName : str;
  targetIsContentEditable : bool
}.

Record KeyboardShortcutHandlers (S : Type) := {
  onSelectAll : option (S -> S);
  onDelete : option (S -> S);
  onEscape : option (S -> S);
  onFocusSearch : option (S -> S);
  onShowShortcuts : option (S -> S)
}.
Arguments onSelectAll {S} _.
Arguments onDelete {S} _.
Arguments onEscape {S} _.
Arguments onFocusSearch {S} _.
Arguments onShowShortcuts {S} _.

(** [handler?.()] *)
Definition callIfPresent {S : Type} (handler : option (S -> S)) (s : S) : S :=
  match handler with
  | Some f => f s
  | None => s
  end.

Definition isInputFocused (event : KeyboardEvent) : bool :=
  str_eqb (targetTagName event) (u "INPUT")
  || str_eqb (targetTagName event) (u "TEXTAREA")
  || targetIsContentEditable event.

Definition isMod (event : KeyboardEvent) : bool :=
  metaKey event || ctrlKey event.

Definition handleKeyDown {S : Type} (handlers : KeyboardShortcutHandlers S)
    (event : KeyboardEvent) (s : S) : S * bool :=
  (* Escape - always works to close modals *)
  if str_eqb (key event) (u "Escape")
  then (callIfPresent (onEscape handlers) s, false)
  (* Show shortcuts with ? (when not in input) *)
  else if str_eqb (key event) (u "?") && negb (isInputFocused event)
  then (callIfPresent (onShowShortcuts handlers) s, true)
  (* Ctrl/Cmd + A - Select all *)
  else if isMod event && str_eqb (key event) (u "a")
          && negb (isInputFocused event)
  then (callIfPresent (onSelectAll handlers) s, true)
  (* Delete/Backspace - Open delete modal (when not in input) *)
  else if (str_eqb (key event) (u "Delete")
           || str_eqb (key event) (u "Backspace"))
          && negb (isInputFocused event)
  then (callIfPresent (onDelete handlers) s, true)
  (* Ctrl/Cmd + F - Focus search (override browser find) *)
  else if isMod event && str_eqb (key event) (u "f")
  then (callIfPresent (onFocusSearch handlers) s, true)
  (* / - Quick focus search (when not in input) *)
  else if str_eqb (key event) (u "/") && negb (isInputFocused event)
  then (callIfPresent (onFocusSearch handlers) s, true)
  else (s, false).

End KeyboardShortcuts.

(** The component's state with the two modal flags that [DashState]
    leaves out, and the focus of the search input
    ([searchInputRef.current?.focus()]). *)
Record Ui := {
  dash : DashState;
  showAbout : bool;
  showKeyboardShortcuts : bool;
  searchFocused : bool
}.

Definition withDash (f : DashState -> DashState) (ui : Ui) : Ui :=
  {| dash := f (dash ui); showAbout := showAbout ui;
     showKeyboardShortcuts := showKeyboardShortcuts ui;
     searchFocused := searchFocused ui |}.

Definition setShowAbout (v : bool) (ui : Ui) : Ui :=
  {| dash := dash ui; showAbout := v;
     showKeyboardShortcuts := showKeyboardShortcuts ui;
     searchFocused := searchFocused ui |}.

Definition setShowKeyboardShortcuts (v : bool) (ui : Ui) : Ui :=
  {| dash := dash ui; showAbout := showAbout ui;
     showKeyboardShortcuts := v;
     searchFocused := searchFocused ui |}.

Definition focusSearch (ui : Ui) : Ui :=
  {| dash := dash ui; showAbout := showAbout ui;
     showKeyboardShortcuts := showKeyboardShortcuts ui;
     searchFocused := true |}.

(** Key presses and screens for the examples. *)
Module SampleKeys.

Definition press (k : str) (modifier : bool) (tag : str)
    : KeyboardShortcuts.KeyboardEvent :=
  {| KeyboardShortcuts.key := k;
     KeyboardShortcuts.metaKey := false;
     KeyboardShortcuts.ctrlKey := modifier;
     KeyboardShortcuts.targetTagName := tag;
     KeyboardShortcuts.targetIsContentEditable := false |}.

Definition screen (st : DashState) (about shortcuts : bool) : Ui :=
  {| dash := st; showAbout := about; showKeyboardShortcuts := shortcuts;
     searchFocused := false |}.

(** The same state, the delete confirmation closed. *)
Definition closed (st : DashState) : DashState := setShowDeleteModal false st.

(** One mark; the aggregate no longer holds its event. *)
Definition staleMark : DashState :=
  Sample.state [Sample.home; Sample.work] [u "home"; u "work"]
    [Sample.standup] [u "gone"] [].

(** Nothing marked, two events visible. *)
Definition nothingMarked : DashState :=
  Sample.twoCalendars [Sample.standup; Sample.lunch].

(** A calendar list that cannot be fetched. *)
Definition failingCalendars (e : ApiError) (srv : MemoryApi.Server)
    : MemoryApi.Server * Outcome (list Calendar) :=
  (srv, Thrown e).

(** The session is expired for the calendar "work". *)
Definition rejectsWork : MemoryApi.Server :=
  Sample.server
    [(u "home", [Sample.nine]); (u "work", [Sample.holiday])]
    [u "work"] [].

End SampleKeys.

(* ================================================================== *)
(** ** The component *)

Section Dashboard.

(** The remote API of [services/api]. *)
Variable Server : Type.
Variable api_getCalendars : Server -> Server * Outcome (list Calendar).
Variable api_getEvents :
  Server -> str -> Z -> str -> option str ->
  Server * Outcome (list CalendarEvent).
Variable api_deleteEvents :
  Server -> str -> list str -> Server * Outcome DeleteResult.

(** The string operations of the JavaScript runtime (Unicode tables and
    collation) and [utils/stripHtml]. *)
Variable normalizeNFD : str -> str.
Variable toLowerCase : str -> str.
Variable localeCompare : str -> str -> Z.
Variable stripHtml : str -> str.

Definition Step : Type := DashState * Server * list Effect.

(** *** loadCalendars *)

(** [c.summaryOverride || c.summary || ''] *)
Definition displayName (c : Calendar) : str :=
  or_empty (or_else (summaryOverride c) (cal_summary c)).

Definition compareCalendars (a b : Calendar) : Z :=
  if primary a && negb (primary b) then -1
  else if negb (primary a) && primary b then 1
  else
    let aName := displayName a in
    let bName := displayName b in
    localeCompare aName bName.

Definition sessionExpiredToast : option Toast :=
  Some {| message := MsgSessionExpired; type := info |}.

Definition loadCalendars (cur : DashState) (srv : Server) : Step :=
  match api_getCalendars srv with
  | (srv', Returned fetchedCalendars) =>
      let sortedCalendars := JsArray.sort compareCalendars fetchedCalendars in
      let cur1 := setCalendars sortedCalendars cur in
      let cur2 :=
        match find primary sortedCalendars with
        | Some primaryCal =>
            setSelectedCalendarIds (JsSet.of_list [cal_id primaryCal]) cur1
        | None =>
            match sortedCalendars with
            | first :: _ =>
                setSelectedCalendarIds (JsSet.of_list [cal_id first]) cur1
            | [] => cur1
            end
        end in
      (cur2, srv', [CallGetCalendars])
  | (srv', Thrown e) =>
      if isTokenExpired e
      then (setToast sessionExpiredToast cur, srv',
            [CallGetCalendars; ScheduleLogout])
      else (cur, srv', [CallGetCalendars])
  end.

(** *** loadEvents *)

(** [a.start.dateTime || a.start.date || ''] *)
Definition startKey (e : CalendarEvent) : str :=
  or_empty (or_else (dateTime (start e)) (date (start e))).

Definition compareEvents (a b : CalendarEvent) : Z :=
  let aTime := startKey a in
  let bTime := startKey b in
  localeCompare aTime bTime.

(** The [for (const calendarId of selectedCalendarIds)] loop; the first
    rejected fetch leaves the loop. *)
Fixpoint fetchLoop (snap : DashState) (srv : Server) (ids : list str)
    (allEvents : list CalendarEvent)
    : Server * list Effect * Outcome (list CalendarEvent) :=
  match ids with
  | [] => (srv, [], Returned allEvents)
  | cid :: rest =>
      let calendar :=
        find (fun c => str_eqb (cal_id c) cid) (calendars snap) in
      let tmax := or_else (timeMax snap) None in
      let call := CallGetEvents cid 100 (timeMin snap) tmax in
      match api_getEvents srv cid 100 (timeMin snap) tmax with
      | (srv', Returned fetchedEvents) =>
          let taggedEvents := map (tagEvent cid calendar) fetchedEvents in
          let '(srv'', tr, r) :=
            fetchLoop snap srv' rest (allEvents ++ taggedEvents) in
          (srv'', call :: tr, r)
      | (srv', Thrown e) => (srv', [call], Thrown e)
      end
  end.

(** [snap] is the render the closure was created in, [cur] the state the
    setters act on. *)
Definition loadEvents (snap cur : DashState) (srv : Server) : Step :=
  if Nat.eqb (JsSet.size (selectedCalendarIds snap)) 0
  then (setLoading false (setEvents [] cur), srv, [])
  else
    let cur1 := setLoading true cur in
    match fetchLoop snap srv (selectedCalendarIds snap) [] with
    | (srv', tr, Returned allEvents) =>
        let sorted := JsArray.sort compareEvents allEvents in
        (setLoading false (setEvents sorted cur1), srv', tr)
    | (srv', tr, Thrown e) =>
        if isTokenExpired e
        then (setLoading false (setToast sessionExpiredToast cur1), srv',
              tr ++ [ScheduleLogout])
        else
          (setLoading false
             (setToast (Some {| message := MsgLoadFailed; type := error |})
                cur1),
           srv', tr)
    end.

(** The effect on [[selectedCalendarIds, timeMin, timeMax, calendars]]. *)
Definition eventsEffect (st : DashState) (srv : Server) : Step :=
  if (0 <? Z.of_nat (JsSet.size (selectedCalendarIds st)))
     && (0 <? Z.of_nat (List.length (calendars st)))
  then loadEvents st st srv
  else if 0 <? Z.of_nat (List.length (calendars st))
  then (setEvents [] st, srv, [])
  else (st, srv, []).

(** *** Handlers without API calls *)

Definition handleCalendarToggle (st : DashState) (cid : str) : DashState :=
  let newSelected :=
    if JsSet.has (selectedCalendarIds st) cid
    then JsSet.delete (selectedCalendarIds st) cid
    else JsSet.add (selectedCalendarIds st) cid in
  setSelectedIds [] (setSelectedCalendarIds newSelected st).

Definition handleDateRangeChange (st : DashState) (newTimeMin : str)
    (newTimeMax : option str) : DashState :=
  setTimeMax newTimeMax (setTimeMin newTimeMin st).
  (* Don't clear selections when date range changes *)

(** [str.normalize('NFD').replace(/[\u0300-\u036f]/g, '').toLowerCase()] *)
Definition normalizeString (s : str) : str :=
  toLowerCase (stripCombiningMarks (normalizeNFD s)).

(** [field && normalizeString(render(field)).includes(normalizedQuery)] *)
Definition fieldMatches (render : str -> str) (field : option str)
    (normalizedQuery : str) : bool :=
  match field with
  | Some (c :: s) =>
      includes (normalizeString (render (c :: s))) normalizedQuery
  | _ => false
  end.

Definition eventMatches (normalizedQuery : str) (event : CalendarEvent)
    : bool :=
  if fieldMatches (fun s => s) (summary event) normalizedQuery then true
  else if fieldMatches stripHtml (description event) normalizedQuery then true
  else if fieldMatches (fun s => s) (location event) normalizedQuery then true
  else false.

Definition filteredEvents (evs : list CalendarEvent) (query : str)
    : list CalendarEvent :=
  if negb (truthy query) then evs
  else
    let normalizedQuery := normalizeString query in
    List.filter (eventMatches normalizedQuery) evs.

Definition visibleEvents (st : DashState) : list CalendarEvent :=
  filteredEvents (events st) (searchQuery st).

Definition handleSelectAll (st : DashState) : DashState :=
  if Nat.eqb (JsSet.size (selectedIds st)) (List.length (visibleEvents st))
  then setSelectedIds [] st
  else setSelectedIds (JsSet.of_list (map id (visibleEvents st))) st.

Definition handleToggleEvent (st : DashState) (eventId : str) : DashState :=
  let newSelected :=
    if JsSet.has (selectedIds st) eventId
    then JsSet.delete (selectedIds st) eventId
    else JsSet.add (selectedIds st) eventId in
  setSelectedIds newSelected st.

Definition handleSearchChange (st : DashState) (query : str) : DashState :=
  setSearchQuery query st.

Definition handleRefresh (st : DashState) (srv : Server) : Step :=
  loadEvents st (setSelectedIds [] st) srv.

(** *** handleDelete *)

(** Group selected event IDs by their calendar. *)
Fixpoint groupByCalendar (evs : list CalendarEvent) (ids : list str)
    (eventsByCalendar : JsMap.t (list str)) : JsMap.t (list str) :=
  match ids with
  | [] => eventsByCalendar
  | eventId :: rest =>
      match find (fun e => str_eqb (id e) eventId) evs with
      | Some event =>
          let list :=
            match JsMap.get eventsByCalendar (calendarId event) with
            | Some l => l
            | None => []
            end in
          groupByCalendar evs rest
            (JsMap.set eventsByCalendar (calendarId event)
               (list ++ [eventId]))
      | None => groupByCalendar evs rest eventsByCalendar
      end
  end.

(** Delete from each calendar: the first rejected call leaves the loop. *)
Fixpoint deleteLoop (srv : Server) (batches : JsMap.t (list str))
    (totalSucceeded totalFailed : Z)
    : Server * list Effect * Outcome (Z * Z) :=
  match batches with
  | [] => (srv, [], Returned (totalSucceeded, totalFailed))
  | (cid, eventIds) :: rest =>
      match api_deleteEvents srv cid eventIds with
      | (srv', Returned result) =>
          let '(srv'', tr, r) :=
            deleteLoop srv' rest
              (totalSucceeded + succeeded result)
              (totalFailed + failed result) in
          (srv'', CallDeleteEvents cid eventIds :: tr, r)
      | (srv', Thrown e) =>
          (srv', [CallDeleteEvents cid eventIds], Thrown e)
      end
  end.

Definition deleteToast (totalSucceeded totalFailed : Z) : option Toast :=
  if 0 <? totalFailed
  then Some {| message := MsgDeletedWithFailures totalSucceeded totalFailed;
               type := error |}
  else Some {| message := MsgDeleted totalSucceeded; type := success |}.

Definition handleDelete (st : DashState) (srv : Server) : Step :=
  let cur := setDeleting true st in
  let eventsByCalendar := groupByCalendar (events st) (selectedIds st) [] in
  match deleteLoop srv eventsByCalendar 0 0 with
  | (srv', tr, Returned (totalSucceeded, totalFailed)) =>
      let cur1 := setToast (deleteToast totalSucceeded totalFailed) cur in
      let cur2 := setShowDeleteModal false (setSelectedIds [] cur1) in
      let '(cur3, srv'', tr') := loadEvents st cur2 srv' in
      (setDeleting false cur3, srv'', tr ++ tr')
  | (srv', tr, Thrown e) =>
      if isTokenExpired e
      then (setDeleting false (setToast sessionExpiredToast cur), srv',
            tr ++ [ScheduleLogout])
      else
        (setDeleting false
           (setToast (Some {| message := MsgDeleteFailed; type := error |})
              cur),
         srv', tr)
  end.

(** A change of the time window: the handler, then the effect of the
    next render. *)
Definition changeTimeWindow (st : DashState) (srv : Server)
    (newTimeMin : str) (newTimeMax : option str) : Step :=
  eventsEffect (handleDateRangeChange st newTimeMin newTimeMax) srv.

(** *** The chips' event counts *)

(** [counts.get(id) || 0] *)
Definition orZero (n : option Z) : Z :=
  match n with
  | Some v => v
  | None => 0
  end.

(** The [for (const event of events)] loop of [eventCountByCalendar]. *)
Fixpoint countEvents (evs : list CalendarEvent) (counts : JsMap.t Z)
    : JsMap.t Z :=
  match evs with
  | [] => counts
  | event :: rest =>
      countEvents rest
        (JsMap.set counts (calendarId event)
           (orZero (JsMap.get counts (calendarId event)) + 1))
  end.

Definition eventCountByCalendar (evs : list CalendarEvent) : JsMap.t Z :=
  countEvents evs [].

(** [eventCountByCalendar.get(calendar.id) || 0] *)
Definition eventCount (evs : list CalendarEvent) (cid : str) : Z :=
  orZero (JsMap.get (eventCountByCalendar evs) cid).

(** *** The keyboard shortcuts of the component *)

Definition handleDeleteModalOpen (st : DashState) : DashState :=
  setShowDeleteModal true st.

Definition shortcutSelectAll (ui : Ui) : Ui :=
  if negb (loading (dash ui))
     && (0 <? Z.of_nat (List.length (visibleEvents (dash ui))))
  then withDash handleSelectAll ui
  else ui.

Definition shortcutDelete (ui : Ui) : Ui :=
  if (0 <? Z.of_nat (JsSet.size (selectedIds (dash ui))))
     && negb (showDeleteModal (dash ui))
  then withDash handleDeleteModalOpen ui
  else ui.

Definition shortcutEscape (ui : Ui) : Ui :=
  if showDeleteModal (dash ui) then withDash (setShowDeleteModal false) ui
  else if showAbout ui then setShowAbout false ui
  else if showKeyboardShortcuts ui then setShowKeyboardShortcuts false ui
  else ui.

Definition dashboardShortcuts : KeyboardShortcuts.KeyboardShortcutHandlers Ui :=
  {| KeyboardShortcuts.onSelectAll := Some shortcutSelectAll;
     KeyboardShortcuts.onDelete := Some shortcutDelete;
     KeyboardShortcuts.onEscape := Some shortcutEscape;
     KeyboardShortcuts.onFocusSearch := Some focusSearch;
     KeyboardShortcuts.onShowShortcuts := Some (setShowKeyboardShortcuts true)
  |}.

(** A key press on the page. *)
Definition onKeyDown (ui : Ui) (event : KeyboardShortcuts.KeyboardEvent)
    : Ui * bool :=
  KeyboardShortcuts.handleKeyDown dashboardShortcuts event ui.

Definition openModals (ui : Ui) : nat :=
  (if showDeleteModal (dash ui) then 1 else 0)
  + (if showAbout ui then 1 else 0)
  + (if showKeyboardShortcuts ui then 1 else 0).

(** *** Runs of the fetch loop in which every call returns *)

Definition fetchCall (snap : DashState) (cid : str) : Effect :=
  CallGetEvents cid 100 (timeMin snap) (or_else (timeMax snap) None).

Definition taggedFrom (snap : DashState) (cid : str)
    (fetchedEvents : list CalendarEvent) : list CalendarEvent :=
  map (tagEvent cid (find (fun c => str_eqb (cal_id c) cid) (calendars snap)))
    fetchedEvents.

Inductive AllFetched (snap : DashState) :
  Server -> list str -> list (list CalendarEvent) -> Server -> Prop :=
| AllFetched_nil srv : AllFetched snap srv [] [] srv
| AllFetched_cons srv cid rest fetchedEvents srv' results srv'' :
    api_getEvents srv cid 100 (timeMin snap) (or_else (timeMax snap) None)
    = (srv', Returned fetchedEvents) ->
    AllFetched snap srv' rest results srv'' ->
    AllFetched snap srv (cid :: rest) (taggedFrom snap cid fetchedEvents :: results)
      srv''.

(** The calendar toggle, then the effect of the next render. *)
Definition toggleCalendar (st : DashState) (srv : Server) (cid : str) : Step :=
  eventsEffect (handleCalendarToggle st cid) srv.

(** *** The specification's wording, for comparison with the code *)

Definition sameMembers (a b : list str) : Prop :=
  forall x, In x a <-> In x b.

(** [selectAll(visibleIds)]: "if the current selection already equals
    exactly the visible set, clear it; otherwise set selection to exactly
    the visible set". *)
Definition spec_selectAll (selection visibleIds result : list str) : Prop :=
  (sameMembers selection visibleIds -> result = [])
  /\ (~ sameMembers selection visibleIds -> sameMembers result visibleIds).

(** Substring containment. *)
Definition contains (s t : str) : Prop :=
  exists pre post, s = pre ++ t ++ post.

(** "an event matches if ANY of the three fields contains the normalized
    query as a substring". *)
Definition spec_eventMatches (query : str) (e : CalendarEvent) : Prop :=
  (exists s, summary e = Some s
             /\ contains (normalizeString s) (normalizeString query))
  \/ (exists s, location e = Some s
                /\ contains (normalizeString s) (normalizeString query))
  \/ (exists s, description e = Some s
                /\ contains (normalizeString (stripHtml s))
                     (normalizeString query)).

(** The same, for fields that are present and not empty. *)
Definition nonEmptyFieldMatches (query : str) (e : CalendarEvent) : Prop :=
  (exists s, summary e = Some s /\ s <> []
             /\ contains (normalizeString s) (normalizeString query))
  \/ (exists s, location e = Some s /\ s <> []
                /\ contains (normalizeString s) (normalizeString query))
  \/ (exists s, description e = Some s /\ s <> []
                /\ contains (normalizeString (stripHtml s))
                     (normalizeString query)).

(** "ordering key = start timestamp (date-only events compared as
    midnight), ties broken by input order (stable sort)". *)
Definition spec_startInstant (e : CalendarEvent) : Z :=
  match SpecTime.instant (startKey e) with
  | Some z => z
  | None => 0
  end.

Definition spec_aggregate (merged : list CalendarEvent)
    : list CalendarEvent :=
  JsArray.sort (fun a b => spec_startInstant a - spec_startInstant b) merged.

(** The same with the tie of an all-day event and a timed event at
    midnight of its date decided: the all-day event goes first. *)
Definition spec_compareStarts (zone : Z) (a b : CalendarEvent) : Z :=
  spec_keyCompare zone (startKey a) (startKey b).

Definition spec_aggregateAt (zone : Z) (merged : list CalendarEvent)
    : list CalendarEvent :=
  JsArray.sort (spec_compareStarts zone) merged.

(** The event that [events.find(e => e.id === eventId)] yields. *)
Definition findEvent (evs : list CalendarEvent) (eventId : str)
    : option CalendarEvent :=
  find (fun e => str_eqb (id e) eventId) evs.

Definition resolvable (evs : list CalendarEvent) (eventId : str) : bool :=
  match findEvent evs eventId with
  | Some _ => true
  | None => false
  end.

(** *** Runs of the delete loop in which every call returns *)

Inductive AllReturned :
  Server -> JsMap.t (list str) -> list DeleteResult -> Server -> Prop :=
| AllReturned_nil srv : AllReturned srv [] [] srv
| AllReturned_cons srv cid eventIds rest result srv' results srv'' :
    api_deleteEvents srv cid eventIds = (srv', Returned result) ->
    AllReturned srv' rest results srv'' ->
    AllReturned srv ((cid, eventIds) :: rest) (result :: results) srv''.

Definition sumZ (l : list Z) : Z := fold_right Z.add 0 l.

Definition deleteCalls (batches : JsMap.t (list str)) : list Effect :=
  map (fun b => CallDeleteEvents (fst b) (snd b)) batches.

(* ================================================================== *)
(** ** Facts about strings, sets and sorting *)

#[local] Set Default Proof Using "Type".

(** Drops the runtime from the context of a proof that does not need it. *)
Ltac forget_runtime :=
  try clear api_getCalendars; try clear api_getEvents;
  try clear api_deleteEvents; try clear normalizeNFD;
  try clear toLowerCase; try clear localeCompare; try clear stripHtml.

Lemma str_eqb_eq (s t : str) : str_eqb s t = true <-> s = t.
Proof.
  revert t; induction s as [|a s IH]; intros [|b t]; simpl;
    try (split; [discriminate | discriminate]); [tauto|].
  rewrite andb_true_iff, N.eqb_eq, IH.
  split; [intros [-> ->]; reflexivity | intros E; inversion E; auto].
Qed.

Lemma str_eqb_refl (s : str) : str_eqb s s = true.
Proof. apply str_eqb_eq; reflexivity. Qed.

Lemma str_eqb_neq (s t : str) : str_eqb s t = false <-> s <> t.
Proof.
  rewrite <- str_eqb_eq. destruct (str_eqb s t); split; congruence.
Qed.

Lemma startsWith_prefix (s t : str) :
  startsWith s t = true <-> exists post, s = t ++ post.
Proof.
  revert s; induction t as [|b t IH]; intros s; simpl.
  - split; [intros _; exists s; reflexivity | destruct s; reflexivity].
  - destruct s as [|a s]; simpl.
    + split; [discriminate | intros [post E]; discriminate].
    + rewrite andb_true_iff, N.eqb_eq, IH. split.
      * intros [-> [post ->]]. exists post; reflexivity.
      * intros [post E]. inversion E; subst. split; [reflexivity|].
        exists post; reflexivity.
Qed.

Lemma includes_contains (s t : str) : includes s t = true <-> contains s t.
Proof.
  unfold contains. induction s as [|a s IH]; cbn [includes].
  - rewrite orb_false_r, startsWith_prefix. split.
    + intros [post E]. exists [], post. exact E.
    + intros [pre [post E]]. destruct pre; simpl in E.
      * exists post; exact E.
      * discriminate.
  - rewrite orb_true_iff, startsWith_prefix, IH. split.
    + intros [[post E] | [pre [post E]]].
      * exists [], post. exact E.
      * exists (a :: pre), post. simpl. rewrite E. reflexivity.
    + intros [pre [post E]]. destruct pre as [|c pre]; simpl in E.
      * left. exists post. exact E.
      * right. inversion E; subst. exists pre, post. reflexivity.
Qed.

Section SortFacts.
Context {A : Type}.
Variable compareFn : A -> A -> Z.

Lemma insert_perm (x : A) (l : list A) :
  Permutation (x :: l) (JsArray.insert compareFn x l).
Proof.
  induction l as [|y l IH]; simpl; [reflexivity|].
  destruct (compareFn x y <=? 0); [reflexivity|].
  rewrite perm_swap. apply perm_skip. exact IH.
Qed.

Lemma sort_perm (l : list A) : Permutation l (JsArray.sort compareFn l).
Proof.
  induction l as [|x l IH]; simpl; [constructor|].
  rewrite <- insert_perm. apply perm_skip. exact IH.
Qed.

Hypothesis Hcons : JsArray.consistent compareFn.

Lemma consistent_total (a b : A) :
  compareFn a b <= 0 \/ compareFn b a <= 0.
Proof using Hcons.
  destruct (Z_le_gt_dec (compareFn a b) 0) as [H|H]; [left; exact H|].
  right. apply Z.gt_lt, (JsArray.cmp_flip _ Hcons) in H. lia.
Qed.

Lemma consistent_zero_sym (a b : A) :
  compareFn a b = 0 -> compareFn b a = 0.
Proof using Hcons.
  intros H.
  pose proof (JsArray.cmp_flip _ Hcons a b) as F1.
  pose proof (JsArray.cmp_flip _ Hcons b a) as F2.
  lia.
Qed.

Lemma insert_sorted (x : A) (l : list A) :
  StronglySorted (fun a b => compareFn a b <= 0) l ->
  StronglySorted (fun a b => compareFn a b <= 0)
    (JsArray.insert compareFn x l).
Proof using Hcons.
  induction 1 as [|y l Hs IH Hy]; simpl.
  - repeat constructor.
  - destruct (compareFn x y <=? 0) eqn:E.
    + apply Z.leb_le in E. constructor; [constructor; assumption|].
      constructor; [exact E|].
      rewrite Forall_forall in *. intros z Hz.
      apply (JsArray.cmp_trans _ Hcons x y z); auto.
    + apply Z.leb_gt in E. constructor; [exact IH|].
      rewrite Forall_forall in *. intros z Hz.
      apply (Permutation_in _ (Permutation_sym (insert_perm x l))) in Hz.
      destruct Hz as [<- | Hz]; [|auto].
      destruct (consistent_total y x); [assumption | lia].
Qed.

Lemma sort_sorted (l : list A) :
  StronglySorted (fun a b => compareFn a b <= 0) (JsArray.sort compareFn l).
Proof using Hcons.
  induction l as [|x l IH]; simpl; [constructor|].
  apply insert_sorted. exact IH.
Qed.

(** Stability: the members of a class of pairwise equivalent elements
    keep their relative order. *)
Lemma insert_filter (P : A -> bool) (x : A) (l : list A) :
  (forall a b, P a = true -> P b = true -> compareFn a b <= 0) ->
  List.filter P (JsArray.insert compareFn x l) = List.filter P (x :: l).
Proof.
  intros HP. induction l as [|y l IH]; simpl; [reflexivity|].
  destruct (compareFn x y <=? 0) eqn:E; [reflexivity|].
  apply Z.leb_gt in E. simpl in *. rewrite IH.
  destruct (P x) eqn:Px, (P y) eqn:Py; try reflexivity.
  specialize (HP x y Px Py). lia.
Qed.

Lemma sort_stable (P : A -> bool) (l : list A) :
  (forall a b, P a = true -> P b = true -> compareFn a b <= 0) ->
  List.filter P (JsArray.sort compareFn l) = List.filter P l.
Proof.
  intros HP. induction l as [|x l IH]; simpl; [reflexivity|].
  rewrite (insert_filter P x _ HP). simpl. rewrite IH. reflexivity.
Qed.

(** In a sorted array, what stands earlier compares below or equal. *)
Lemma sorted_split (l1 l2 l3 : list A) (a b : A) :
  StronglySorted (fun a b => compareFn a b <= 0) (l1 ++ a :: l2 ++ b :: l3) ->
  compareFn a b <= 0.
Proof.
  induction l1 as [|c l1 IH]; simpl; intros H; inversion H; subst.
  - rewrite Forall_forall in *. match goal with Hf : forall _, _ -> _ |- _ =>
      apply Hf end. apply in_or_app. right. left. reflexivity.
  - auto.
Qed.

(** Two members, one strictly below the other: it stands earlier. *)
Lemma sorted_precedes (l : list A) (a b : A) :
  StronglySorted (fun a b => compareFn a b <= 0) l ->
  In a l -> In b l -> compareFn a b < 0 ->
  exists l1 l2 l3, l = l1 ++ a :: l2 ++ b :: l3.
Proof using Hcons.
  intros Hs Ha Hb Hlt.
  destruct (in_split _ _ Ha) as [l1 [l2 ->]].
  apply in_app_or in Hb. destruct Hb as [Hb | [Hb | Hb]].
  - exfalso. destruct (in_split _ _ Hb) as [m1 [m2 ->]].
    rewrite <- app_assoc in Hs. simpl in Hs.
    pose proof (sorted_split _ _ _ _ _ Hs) as Hle.
    apply (JsArray.cmp_flip _ Hcons) in Hlt. lia.
  - exfalso. subst b.
    pose proof (JsArray.cmp_flip _ Hcons a a). lia.
  - destruct (in_split _ _ Hb) as [m1 [m2 ->]].
    exists l1, m1, m2. reflexivity.
Qed.

End SortFacts.

Lemma has_In (s : JsSet.t) (x : str) : JsSet.has s x = true <-> In x s.
Proof.
  unfold JsSet.has. rewrite existsb_exists. split.
  - intros [y [Hy E]]. apply str_eqb_eq in E. subst. exact Hy.
  - intros H. exists x. split; [exact H | apply str_eqb_refl].
Qed.

Lemma add_In (s : JsSet.t) (x y : str) :
  In y (JsSet.add s x) <-> In y s \/ y = x.
Proof.
  unfold JsSet.add. destruct (JsSet.has s x) eqn:E.
  - apply has_In in E. split; [auto | intros [H | ->]; assumption].
  - rewrite in_app_iff. simpl. split.
    + intros [H | [H | []]]; [left; exact H | right; symmetry; exact H].
    + intros [H | H]; [left; exact H | right; left; symmetry; exact H].
Qed.

Lemma add_NoDup (s : JsSet.t) (x : str) : NoDup s -> NoDup (JsSet.add s x).
Proof.
  intros H. unfold JsSet.add. destruct (JsSet.has s x) eqn:E; [exact H|].
  apply NoDup_app; [exact H | repeat constructor; intros [] |].
  intros y Hy [<- | []]. apply has_In in Hy. congruence.
Qed.

Lemma fold_add_In (l : list str) (acc : JsSet.t) (y : str) :
  In y (fold_left JsSet.add l acc) <-> In y acc \/ In y l.
Proof.
  forget_runtime.
  revert acc; induction l as [|x l IH]; intros acc; simpl; [tauto|].
  rewrite IH, add_In. intuition congruence.
Qed.

Lemma fold_add_NoDup (l : list str) (acc : JsSet.t) :
  NoDup acc -> NoDup (fold_left JsSet.add l acc).
Proof.
  revert acc; induction l as [|x l IH]; intros acc H; simpl; [exact H|].
  apply IH, add_NoDup, H.
Qed.

Lemma of_list_In (l : list str) (y : str) : In y (JsSet.of_list l) <-> In y l.
Proof.
  forget_runtime.
  unfold JsSet.of_list. rewrite fold_add_In. simpl. tauto.
Qed.

Lemma of_list_NoDup (l : list str) : NoDup (JsSet.of_list l).
Proof. apply fold_add_NoDup. constructor. Qed.

(** Two duplicate-free lists, one inside the other: equal sizes mean equal
    members. *)
Lemma same_size_same_members (a b : list str) :
  NoDup a -> NoDup b -> incl a b ->
  (List.length a = List.length b <-> sameMembers a b).
Proof.
  intros Ha Hb Hab. split.
  - intros E x. split; [apply Hab|].
    apply (NoDup_length_incl Ha); [lia | exact Hab].
  - intros E. apply Permutation_length, NoDup_Permutation; assumption.
Qed.

(* ================================================================== *)
(** ** The selection and the filters that surround it *)

Lemma loadEvents_selectedIds (snap cur : DashState) (srv : Server) :
  selectedIds (fst (fst (loadEvents snap cur srv))) = selectedIds cur.
Proof.
  unfold loadEvents.
  destruct (Nat.eqb _ 0); [reflexivity|].
  destruct (fetchLoop _ _ _ _) as [[srv' tr] [allEvents | e]];
    [reflexivity|].
  destruct (isTokenExpired e); reflexivity.
Qed.

(** C1, as the code has it: a change of the time window does not touch
    the selection.  The handler sets [timeMin] and [timeMax] only, and the
    reload that the next render starts leaves [selectedIds] as it was: for
    every prior selection, the selection after the change is the prior
    selection. *)
Theorem C1_time_window_keeps_selection
    (st : DashState) (srv : Server) (newTimeMin : str)
    (newTimeMax : option str) :
  selectedIds (handleDateRangeChange st newTimeMin newTimeMax)
  = selectedIds st
  /\ selectedIds (fst (fst (changeTimeWindow st srv newTimeMin newTimeMax)))
     = selectedIds st.
Proof.
  split; [reflexivity|].
  unfold changeTimeWindow, eventsEffect.
  destruct (_ && _).
  - rewrite loadEvents_selectedIds. reflexivity.
  - destruct (0 <? _); reflexivity.
Qed.

(** C7: filtering with the empty query is the identity: the same events
    in the same order. *)
Theorem C7_empty_query_is_identity (evs : list CalendarEvent) :
  filteredEvents evs [] = evs.
Proof. reflexivity. Qed.

(** C8: a change of the search query leaves the selection exactly as it
    was, whatever the new query shows or hides; of the state only the
    query changes. *)
Theorem C8_search_keeps_selection (st : DashState) (query : str) :
  selectedIds (handleSearchChange st query) = selectedIds st
  /\ searchQuery (handleSearchChange st query) = query
  /\ events (handleSearchChange st query) = events st.
Proof. repeat split. Qed.

(* ================================================================== *)
(** ** The search filter *)

Lemma fieldMatches_spec (render : str -> str) (field : option str)
    (nq : str) :
  fieldMatches render field nq = true <->
  exists s, field = Some s /\ s <> []
            /\ contains (normalizeString (render s)) nq.
Proof.
  unfold fieldMatches. destruct field as [[|c s]|].
  - split; [discriminate | intros [s [E [Hne _]]]].
    inversion E; subst. contradiction.
  - rewrite includes_contains. split.
    + intros H. exists (c :: s). repeat split; [discriminate | exact H].
    + intros [s' [E [_ H]]]. inversion E; subst. exact H.
  - split; [discriminate | intros [s [E _]]; discriminate].
Qed.

Lemma eventMatches_spec (query : str) (e : CalendarEvent) :
  eventMatches (normalizeString query) e = true <->
  nonEmptyFieldMatches query e.
Proof.
  forget_runtime.
  unfold eventMatches, nonEmptyFieldMatches.
  rewrite <- (fieldMatches_spec (fun s => s) (summary e)).
  rewrite <- (fieldMatches_spec (fun s => s) (location e)).
  rewrite <- (fieldMatches_spec stripHtml (description e)).
  destruct (fieldMatches (fun s => s) (summary e) _);
    destruct (fieldMatches stripHtml (description e) _);
    destruct (fieldMatches (fun s => s) (location e) _);
    intuition congruence.
Qed.

Lemma filteredEvents_nonempty (evs : list CalendarEvent) (query : str) :
  query <> [] ->
  filteredEvents evs query
  = List.filter (eventMatches (normalizeString query)) evs.
Proof.
  intros H. unfold filteredEvents. destruct query; [contradiction|].
  reflexivity.
Qed.

(** C4, as the code has it: for a non-empty query the filter keeps, in
    their order, exactly the events of which at least one of title,
    location and description is present and not empty and, normalized
    (the description after [stripHtml]), contains the normalized query;
    the query and the fields go through the same [normalizeString].  On
    a runtime that decomposes U+00E9 into e and U+0301 and lower-cases C
    to c, an event titled "César" is kept for the query "cesar". *)
Theorem C4_filter_keeps_matching_events
    (evs : list CalendarEvent) (query : str) :
  query <> [] ->
  (forall e, In e (filteredEvents evs query) <->
             In e evs /\ nonEmptyFieldMatches query e)
  /\ (exists keep : CalendarEvent -> bool,
        (forall e, keep e = true <-> nonEmptyFieldMatches query e)
        /\ filteredEvents evs query = List.filter keep evs)
  /\ (normalizeNFD Sample.Cesar = u "Ce" ++ Sample.acuteAccent ++ u "sar" ->
      normalizeNFD (u "cesar") = u "cesar" ->
      toLowerCase (u "Cesar") = u "cesar" ->
      toLowerCase (u "cesar") = u "cesar" ->
      forall e, In e evs -> summary e = Some Sample.Cesar ->
                In e (filteredEvents evs (u "cesar"))).
Proof.
  forget_runtime.
  intros Hq. split; [|split].
  - intros e. rewrite (filteredEvents_nonempty _ _ Hq), filter_In.
    rewrite eventMatches_spec. tauto.
  - exists (eventMatches (normalizeString query)). split.
    + intros e. apply eventMatches_spec.
    + apply filteredEvents_nonempty, Hq.
  - intros Hd Hq1 Hl Hl1 e He Hs.
    rewrite filteredEvents_nonempty by discriminate.
    apply filter_In. split; [exact He|].
    apply eventMatches_spec. left. exists Sample.Cesar.
    split; [exact Hs|]. split; [discriminate|].
    exists [], []. unfold normalizeString. rewrite Hd, Hq1.
    change (stripCombiningMarks (u "Ce" ++ Sample.acuteAccent ++ u "sar"))
      with (u "Cesar").
    change (stripCombiningMarks (u "cesar")) with (u "cesar").
    rewrite Hl, Hl1. reflexivity.
Qed.

(* ================================================================== *)
(** ** The loaders: order of the events and of the calendars *)

Lemma compareEvents_consistent :
  JsArray.consistent localeCompare -> JsArray.consistent compareEvents.
Proof.
  intros [Hflip Htrans]. split; unfold compareEvents; intros.
  - apply Hflip.
  - eapply Htrans; eassumption.
Qed.

Lemma compareCalendars_consistent :
  JsArray.consistent localeCompare -> JsArray.consistent compareCalendars.
Proof.
  intros [Hflip Htrans]. split; unfold compareCalendars.
  - intros a b. destruct (primary a), (primary b); simpl;
      try apply Hflip; lia.
  - intros a b c.
    destruct (primary a), (primary b), (primary c); simpl;
      try apply Htrans; lia.
Qed.

Lemma loadEvents_events (snap cur : DashState) (srv srv' : Server)
    (tr : list Effect) (merged : list CalendarEvent) :
  selectedCalendarIds snap <> [] ->
  fetchLoop snap srv (selectedCalendarIds snap) [] = (srv', tr, Returned merged) ->
  loadEvents snap cur srv
  = (setLoading false
       (setEvents (JsArray.sort compareEvents merged) (setLoading true cur)),
     srv', tr).
Proof.
  intros Hne Hf. unfold loadEvents, JsSet.size.
  destruct (selectedCalendarIds snap) eqn:E; [contradiction|].
  simpl Nat.eqb. cbv iota. rewrite Hf. reflexivity.
Qed.

(* ================================================================== *)
(** ** The order of start strings and the order of start times *)

Lemma codeUnitCompare_flip (a b : str) :
  codeUnitCompare a b < 0 <-> 0 < codeUnitCompare b a.
Proof.
  revert b. induction a as [|x a IH]; intros [|y b]; simpl; try lia.
  rewrite (N.compare_antisym x y).
  destruct (N.compare x y); simpl; [apply IH | lia | lia].
Qed.

Lemma codeUnitCompare_trans (a b c : str) :
  codeUnitCompare a b <= 0 -> codeUnitCompare b c <= 0 ->
  codeUnitCompare a c <= 0.
Proof.
  revert b c. induction a as [|x a IH]; intros [|y b] [|z c]; simpl;
    try lia.
  destruct (N.compare_spec x y), (N.compare_spec y z),
    (N.compare_spec x z); subst; try lia.
  apply IH.
Qed.

Lemma codeUnitCompare_consistent : JsArray.consistent codeUnitCompare.
Proof.
  split; [apply codeUnitCompare_flip | apply codeUnitCompare_trans].
Qed.

Lemma codeUnitCompare_prefix (day time : str) :
  codeUnitCompare day (day ++ u "T" ++ time) < 0.
Proof.
  induction day as [|x day IH]; simpl; [lia|].
  rewrite N.compare_refl. exact IH.
Qed.

Section StartTextFacts.
Import StartText.

(** *** Reading a well-formed start string *)

Lemma digitAt_digit (s : str) (i : nat) (v : N) :
  nth_error s i = Some (digit v) -> isDigit v = true ->
  SpecTime.digitAt s i = Some (Z.of_N v).
Proof.
  intros E H. unfold SpecTime.digitAt. rewrite E.
  unfold isDigit in H. apply N.leb_le in H. unfold digit.
  assert (H1 : N.leb 48 (48 + v) = true) by (apply N.leb_le; lia).
  assert (H2 : N.leb (48 + v) 57 = true) by (apply N.leb_le; lia).
  rewrite H1, H2. cbn [andb]. f_equal. lia.
Qed.

Lemma validDate_spec (D : DateDigits) :
  validDate D = true ->
  (isDigit (y1 D) = true /\ isDigit (y2 D) = true /\ isDigit (y3 D) = true
   /\ isDigit (y4 D) = true /\ isDigit (m1 D) = true /\ isDigit (m2 D) = true
   /\ isDigit (d1 D) = true /\ isDigit (d2 D) = true)
  /\ 1 <= monthOf D <= 12
  /\ 1 <= dayOf D <= daysInMonth (yearOf D) (monthOf D).
Proof.
  unfold validDate. rewrite !andb_true_iff, !Z.leb_le. tauto.
Qed.

Lemma validClock_spec (C : ClockDigits) :
  validClock C = true ->
  (isDigit (h1 C) = true /\ isDigit (h2 C) = true /\ isDigit (mi1 C) = true
   /\ isDigit (mi2 C) = true /\ isDigit (s1 C) = true /\ isDigit (s2 C) = true)
  /\ 0 <= hourOf C <= 23 /\ 0 <= minuteOf C <= 59 /\ 0 <= secondOf C <= 59.
Proof.
  unfold validClock, hourOf, minuteOf, secondOf.
  rewrite !andb_true_iff, !Z.leb_le. intuition lia.
Qed.

Ltac read_digits :=
  repeat match goal with
    | |- context [SpecTime.digitAt ?s ?i] =>
        rewrite (digitAt_digit s i _ eq_refl) by assumption
    end.

Lemma dateSeconds_dateText (D : DateDigits) (rest : str) :
  validDate D = true ->
  SpecTime.dateSeconds (dateText D ++ rest) = Some (86400 * dayNumber D).
Proof.
  intros H. destruct (validDate_spec D H) as [(Ha & Hb & Hc & Hd & He & Hf & Hg & Hh) _].
  unfold SpecTime.dateSeconds, dateText, dayNumber, yearOf, monthOf, dayOf.
  cbn [SpecTime.number app]. read_digits.
  cbn [SpecTime.isAt nth_error app]. rewrite N.eqb_refl. cbn [andb].
  f_equal. f_equal. f_equal; lia.
Qed.

Lemma clockSeconds_text (D : DateDigits) (C : ClockDigits) (rest : str) :
  validClock C = true ->
  SpecTime.clockSeconds (dateText D ++ clockText C ++ rest)
  = Some (secondsOfDay C).
Proof.
  intros H.
  destruct (validClock_spec C H) as [(Ha & Hb & Hc & Hd & He & Hf) _].
  unfold SpecTime.clockSeconds, dateText, clockText, secondsOfDay, hourOf,
    minuteOf, secondOf.
  cbn [SpecTime.number app]. read_digits.
  cbn [SpecTime.isAt nth_error app]. rewrite !N.eqb_refl. cbn [andb].
  reflexivity.
Qed.

Lemma offsetSeconds_text (D : DateDigits) (C : ClockDigits)
    (zoneText : str) (zone : Z) :
  ZoneText zoneText zone ->
  SpecTime.offsetSeconds (dateText D ++ clockText C ++ zoneText) = Some zone.
Proof.
  intros [ | a b c d H | a b c d H].
  - reflexivity.
  - rewrite !andb_true_iff in H. destruct H as [[[Ha Hb] Hc] Hd].
    unfold SpecTime.offsetSeconds, dateText, clockText.
    cbn [SpecTime.isAt nth_error app List.length Nat.eqb andb N.eqb Pos.eqb].
    cbn [SpecTime.number]. read_digits.
    cbn [SpecTime.isAt nth_error app List.length Nat.eqb andb N.eqb Pos.eqb].
    first [reflexivity | f_equal; lia].
  - rewrite !andb_true_iff in H. destruct H as [[[Ha Hb] Hc] Hd].
    unfold SpecTime.offsetSeconds, dateText, clockText.
    cbn [SpecTime.isAt nth_error app List.length Nat.eqb andb N.eqb Pos.eqb].
    cbn [SpecTime.number]. read_digits.
    cbn [SpecTime.isAt nth_error app List.length Nat.eqb andb N.eqb Pos.eqb].
    first [reflexivity | f_equal; lia].
Qed.

Lemma ZoneText_length (zoneText : str) (zone : Z) :
  ZoneText zoneText zone ->
  List.length zoneText = 1%nat \/ List.length zoneText = 6%nat.
Proof. intros [ | | ]; simpl; auto. Qed.

Lemma spec_instantAt_allDay (zone : Z) (D : DateDigits) :
  validDate D = true ->
  spec_instantAt zone (dateText D) = Some (86400 * dayNumber D - zone).
Proof.
  intros H. unfold spec_instantAt.
  change (Nat.eqb (List.length (dateText D)) 10) with true. cbv iota.
  rewrite <- (app_nil_r (dateText D)), (dateSeconds_dateText D [] H).
  reflexivity.
Qed.

Lemma spec_instantAt_timed (zoneText : str) (zone : Z) (D : DateDigits)
    (C : ClockDigits) :
  ZoneText zoneText zone -> validDate D = true -> validClock C = true ->
  spec_instantAt zone (dateText D ++ clockText C ++ zoneText)
  = Some (86400 * dayNumber D + secondsOfDay C - zone).
Proof.
  intros Hz HD HC. unfold spec_instantAt, SpecTime.instant.
  assert (Hlen : Nat.eqb (List.length (dateText D ++ clockText C ++ zoneText)) 10
                 = false).
  { rewrite !length_app. destruct (ZoneText_length _ _ Hz) as [-> | ->];
      reflexivity. }
  rewrite Hlen, (dateSeconds_dateText D _ HD), (clockSeconds_text D C _ HC),
    (offsetSeconds_text D C _ _ Hz).
  reflexivity.
Qed.

(** *** Days of the calendar *)

Ltac month_cases m :=
  let H := fresh in
  assert (H : m = 1 \/ m = 2 \/ m = 3 \/ m = 4 \/ m = 5 \/ m = 6 \/ m = 7
              \/ m = 8 \/ m = 9 \/ m = 10 \/ m = 11 \/ m = 12) by lia;
  destruct H as [H|[H|[H|[H|[H|[H|[H|[H|[H|[H|[H|H]]]]]]]]]]]; subst m.

Lemma daysInMonth_bounds (y m : Z) : 28 <= daysInMonth y m <= 31.
Proof.
  unfold daysInMonth.
  destruct (m =? 2); [destruct (leapYear y); lia|].
  destruct (_ || _); lia.
Qed.

Lemma days_from_march (y m d : Z) :
  SpecTime.daysFromCivil y m d
  = marchFirst (if m <=? 2 then y - 1 else y)
    + (153 * (if 2 <? m then m - 3 else m + 9) + 2) / 5 + d - 1.
Proof. unfold SpecTime.daysFromCivil, marchFirst. cbv zeta. lia. Qed.

Lemma march_step (y : Z) :
  marchFirst y = marchFirst (y - 1) + 365 + (if leapYear y then 1 else 0).
Proof.
  unfold marchFirst, leapYear. cbv zeta.
  destruct (y mod 4 =? 0) eqn:E4; destruct (y mod 100 =? 0) eqn:E100;
    destruct (y mod 400 =? 0) eqn:E400; simpl;
    rewrite ?Z.eqb_eq, ?Z.eqb_neq in *;
    (assert ((y - 1) mod 400 = 399 \/ (y - 1) mod 400 < 399) as [C|C]
       by (Z.div_mod_to_equations; lia));
    Z.div_mod_to_equations; lia.
Qed.

Lemma march_mono (y y' : Z) : y <= y' -> marchFirst y <= marchFirst y'.
Proof.
  intros H. replace y' with (y + Z.of_nat (Z.to_nat (y' - y))) by lia.
  induction (Z.to_nat (y' - y)) as [|n IH].
  - replace (y + Z.of_nat 0) with y by lia. lia.
  - pose proof (march_step (y + Z.of_nat (S n))) as Hs.
    replace (y + Z.of_nat (S n) - 1) with (y + Z.of_nat n) in Hs by lia.
    destruct (leapYear (y + Z.of_nat (S n))); lia.
Qed.

(** The day of the year, counted from the first of March before. *)
Lemma in_march_year (y m d : Z) :
  1 <= m <= 12 -> 1 <= d <= daysInMonth y m ->
  marchFirst (y - 1) + 306 <= SpecTime.daysFromCivil y m d
  /\ SpecTime.daysFromCivil y m d < marchFirst y + 306.
Proof.
  intros Hm Hd. unfold daysInMonth in Hd.
  pose proof (march_step y) as Hs.
  destruct (leapYear y);
    (month_cases m; simpl in Hd; rewrite days_from_march; simpl;
     Z.div_mod_to_equations; lia).
Qed.

Lemma same_year (y m d m' d' : Z) :
  1 <= m -> m < m' -> m' <= 12 -> d <= daysInMonth y m -> 1 <= d' ->
  SpecTime.daysFromCivil y m d < SpecTime.daysFromCivil y m' d'.
Proof.
  intros H1 H2 H3 Hd Hd'.
  assert (Hm : 1 <= m <= 12) by lia. assert (Hm' : 1 <= m' <= 12) by lia.
  unfold daysInMonth in Hd.
  pose proof (march_step y) as Hs.
  destruct (leapYear y);
    (month_cases m; month_cases m'; try lia; simpl in Hd;
     rewrite !days_from_march; simpl; Z.div_mod_to_equations; lia).
Qed.

Lemma days_mono (y m d y' m' d' : Z) :
  1 <= m <= 12 -> 1 <= d <= daysInMonth y m ->
  1 <= m' <= 12 -> 1 <= d' <= daysInMonth y' m' ->
  y < y' \/ (y = y' /\ (m < m' \/ (m = m' /\ d < d'))) ->
  SpecTime.daysFromCivil y m d < SpecTime.daysFromCivil y' m' d'.
Proof.
  intros Hm Hd Hm' Hd' [Hy | [-> [Hlt | [-> Hlt]]]].
  - destruct (in_march_year y m d Hm Hd) as [_ H1].
    destruct (in_march_year y' m' d' Hm' Hd') as [H2 _].
    pose proof (march_mono y (y' - 1)). lia.
  - apply same_year; lia.
  - rewrite !days_from_march. lia.
Qed.

(** *** Comparing start strings by code units *)

Lemma codeUnitCompare_refl (s : str) : codeUnitCompare s s = 0.
Proof.
  induction s as [|a s IH]; simpl; [reflexivity|].
  rewrite N.compare_refl. exact IH.
Qed.

Lemma codeUnitCompare_eq (s t : str) : codeUnitCompare s t = 0 -> s = t.
Proof.
  revert t. induction s as [|a s IH]; intros [|b t]; simpl; try lia;
    [reflexivity|].
  destruct (N.compare_spec a b) as [E | E | E]; try lia.
  intros H0. subst. f_equal. apply IH, H0.
Qed.

Lemma codeUnitCompare_app (x y s t : str) :
  List.length x = List.length y ->
  codeUnitCompare (x ++ s) (y ++ t)
  = if codeUnitCompare x y =? 0 then codeUnitCompare s t
    else codeUnitCompare x y.
Proof.
  revert y. induction x as [|a x IH]; intros [|b y]; simpl; intros H;
    try discriminate; [reflexivity|].
  destruct (N.compare a b); [apply IH; lia | reflexivity | reflexivity].
Qed.

Lemma compare_digit (a b : N) : N.compare (digit a) (digit b) = N.compare a b.
Proof.
  unfold digit. destruct (N.compare_spec a b) as [E | E | E].
  - subst. apply N.compare_refl.
  - apply N.compare_lt_iff. lia.
  - apply N.compare_gt_iff. lia.
Qed.

Ltac compare_digits :=
  rewrite ?compare_digit, ?N.compare_refl;
  repeat match goal with
    | |- context [N.compare ?a ?b] => destruct (N.compare_spec a b)
    end.

Lemma compare_dates (D D' : DateDigits) :
  validDate D = true -> validDate D' = true ->
  (codeUnitCompare (dateText D) (dateText D') < 0 ->
   dayNumber D < dayNumber D')
  /\ (codeUnitCompare (dateText D) (dateText D') = 0 ->
      dayNumber D = dayNumber D')
  /\ (0 < codeUnitCompare (dateText D) (dateText D') ->
      dayNumber D' < dayNumber D).
Proof.
  intros H H'.
  destruct (validDate_spec D H) as [(Ha & Hb & Hc & Hd & He & Hf & Hg & Hh) [Hm Hday]].
  destruct (validDate_spec D' H') as [(Ha' & Hb' & Hc' & Hd' & He' & Hf' & Hg' & Hh') [Hm' Hday']].
  pose proof (daysInMonth_bounds (yearOf D) (monthOf D)) as Hb1.
  pose proof (daysInMonth_bounds (yearOf D') (monthOf D')) as Hb2.
  assert (Hnum :
    (dateNumber D < dateNumber D' -> dayNumber D < dayNumber D')
    /\ (dateNumber D = dateNumber D' -> dayNumber D = dayNumber D')).
  { split.
    - intros Hlt. apply days_mono; try assumption.
      unfold dateNumber in Hlt. lia.
    - intros Heq. unfold dateNumber in Heq. unfold dayNumber.
      assert (yearOf D = yearOf D') by lia.
      assert (monthOf D = monthOf D') by lia.
      assert (dayOf D = dayOf D') by lia. congruence. }
  assert (Hnum' : dateNumber D' < dateNumber D -> dayNumber D' < dayNumber D).
  { intros Hlt. apply days_mono; try assumption.
    unfold dateNumber in Hlt. lia. }
  destruct Hnum as [Hlt Heq].
  unfold isDigit in *. rewrite N.leb_le in *.
  assert (Hcmp :
    (codeUnitCompare (dateText D) (dateText D') < 0 ->
     dateNumber D < dateNumber D')
    /\ (codeUnitCompare (dateText D) (dateText D') = 0 ->
        dateNumber D = dateNumber D')
    /\ (0 < codeUnitCompare (dateText D) (dateText D') ->
        dateNumber D' < dateNumber D)).
  { unfold dateNumber, yearOf, monthOf, dayOf, dateText.
    cbn [codeUnitCompare]. compare_digits; repeat split; intros; lia. }
  destruct Hcmp as (C1 & C2 & C3). repeat split; auto.
Qed.

Lemma compare_clocks (C C' : ClockDigits) :
  validClock C = true -> validClock C' = true ->
  (codeUnitCompare (clockText C) (clockText C') < 0 ->
   secondsOfDay C < secondsOfDay C')
  /\ (codeUnitCompare (clockText C) (clockText C') = 0 ->
      secondsOfDay C = secondsOfDay C')
  /\ (0 < codeUnitCompare (clockText C) (clockText C') ->
      secondsOfDay C' < secondsOfDay C).
Proof.
  intros H H'.
  destruct (validClock_spec C H) as [(Ha & Hb & Hc & Hd & He & Hf) (Hh & Hmi & Hs)].
  destruct (validClock_spec C' H') as [(Ha' & Hb' & Hc' & Hd' & He' & Hf') (Hh' & Hmi' & Hs')].
  unfold isDigit in *. rewrite N.leb_le in *.
  unfold secondsOfDay, hourOf, minuteOf, secondOf, clockText in *.
  cbn [codeUnitCompare]. compare_digits; repeat split; intros; lia.
Qed.

Lemma secondsOfDay_bounds (C : ClockDigits) :
  validClock C = true -> 0 <= secondsOfDay C <= 86399.
Proof.
  intros H. destruct (validClock_spec C H) as [_ (Hh & Hmi & Hs)].
  unfold secondsOfDay. lia.
Qed.

Lemma spec_startRank_allDay (D : DateDigits) : spec_startRank (dateText D) = 0.
Proof. reflexivity. Qed.

Lemma spec_startRank_timed (zoneText : str) (zone : Z) (D : DateDigits)
    (C : ClockDigits) :
  ZoneText zoneText zone ->
  spec_startRank (dateText D ++ clockText C ++ zoneText) = 1.
Proof.
  intros Hz. unfold spec_startRank. rewrite !length_app.
  destruct (ZoneText_length _ _ Hz) as [-> | ->]; reflexivity.
Qed.

Ltac key_cases :=
  match goal with
  | |- context [if ?a =? ?b then _ else _] => destruct (Z.eqb_spec a b); lia
  end.

(** On well-formed start texts of one offset, a text that compares below
    another starts earlier, or at the same instant as an all-day event
    before a timed one. *)
Lemma wellFormed_compare (zoneText : str) (zone : Z) (s t : str) :
  ZoneText zoneText zone ->
  WellFormed zoneText s -> WellFormed zoneText t ->
  codeUnitCompare s t < 0 -> spec_keyCompare zone s t < 0.
Proof.
  intros Hz [D HD | D C HD HC] [D' HD' | D' C' HD' HC'];
    unfold spec_keyCompare, spec_startTime;
    rewrite ?(spec_instantAt_allDay zone _ HD), ?(spec_instantAt_allDay zone _ HD'),
      ?(spec_instantAt_timed _ _ _ _ Hz HD HC),
      ?(spec_instantAt_timed _ _ _ _ Hz HD' HC'),
      ?spec_startRank_allDay, ?(spec_startRank_timed _ _ _ _ Hz);
    destruct (compare_dates D D' HD HD') as (Dlt & Deq & Dgt);
    try pose proof (secondsOfDay_bounds C HC);
    try pose proof (secondsOfDay_bounds C' HC').
  - intros Hc. specialize (Dlt Hc).
    key_cases.
  - rewrite <- (app_nil_r (dateText D)) at 1.
    rewrite codeUnitCompare_app by reflexivity.
    destruct (codeUnitCompare (dateText D) (dateText D') =? 0) eqn:E0.
    + apply Z.eqb_eq in E0. specialize (Deq E0). intros _.
      key_cases.
    + intros Hc. specialize (Dlt Hc).
      key_cases.
  - rewrite <- (app_nil_r (dateText D')).
    rewrite codeUnitCompare_app by reflexivity.
    destruct (codeUnitCompare (dateText D) (dateText D') =? 0) eqn:E0.
    + destruct (clockText C ++ zoneText) eqn:Ec; [discriminate Ec|].
      simpl. lia.
    + intros Hc. specialize (Dlt Hc).
      key_cases.
  - rewrite codeUnitCompare_app by reflexivity.
    destruct (codeUnitCompare (dateText D) (dateText D') =? 0) eqn:E0.
    + apply Z.eqb_eq in E0. specialize (Deq E0).
      rewrite codeUnitCompare_app by reflexivity.
      destruct (compare_clocks C C' HC HC') as (Clt & Ceq & Cgt).
      destruct (codeUnitCompare (clockText C) (clockText C') =? 0) eqn:E1.
      * rewrite codeUnitCompare_refl. lia.
      * intros Hc. specialize (Clt Hc).
        key_cases.
    + intros Hc. specialize (Dlt Hc).
      key_cases.
Qed.

Lemma spec_keyCompare_refl (zone : Z) (s : str) : spec_keyCompare zone s s = 0.
Proof. unfold spec_keyCompare. rewrite Z.eqb_refl. lia. Qed.

Lemma spec_keyCompare_flip (zone : Z) (s t : str) :
  spec_keyCompare zone s t < 0 <-> 0 < spec_keyCompare zone t s.
Proof.
  unfold spec_keyCompare. rewrite (Z.eqb_sym (spec_startTime zone t)).
  destruct (_ =? _); lia.
Qed.

Lemma spec_keyCompare_trans (zone : Z) (s t r : str) :
  spec_keyCompare zone s t <= 0 -> spec_keyCompare zone t r <= 0 ->
  spec_keyCompare zone s r <= 0.
Proof.
  unfold spec_keyCompare.
  destruct (spec_startTime zone s =? spec_startTime zone t) eqn:E1;
    destruct (spec_startTime zone t =? spec_startTime zone r) eqn:E2;
    destruct (spec_startTime zone s =? spec_startTime zone r) eqn:E3;
    rewrite ?Z.eqb_eq, ?Z.eqb_neq in *; lia.
Qed.

Lemma wellFormed_compare_iff (zoneText : str) (zone : Z) (s t : str) :
  ZoneText zoneText zone ->
  WellFormed zoneText s -> WellFormed zoneText t ->
  (codeUnitCompare s t <= 0 <-> spec_keyCompare zone s t <= 0).
Proof.
  intros Hz Hs Ht. split.
  - intros Hle. destruct (Z.eq_dec (codeUnitCompare s t) 0) as [E | E].
    + apply codeUnitCompare_eq in E. subst t.
      rewrite spec_keyCompare_refl. lia.
    + pose proof (wellFormed_compare _ _ s t Hz Hs Ht). lia.
  - intros Hle.
    destruct (Z_le_gt_dec (codeUnitCompare s t) 0) as [H | H]; [exact H|].
    exfalso. apply Z.gt_lt, codeUnitCompare_flip in H.
    pose proof (wellFormed_compare _ _ t s Hz Ht Hs H) as Hk.
    apply spec_keyCompare_flip in Hk. lia.
Qed.


End StartTextFacts.

(** Sorting with two comparators that agree, on the members of the
    array, on which of two goes first. *)
Section SortExt.
Context {A : Type}.
Variables c1 c2 : A -> A -> Z.

Lemma insert_ext (x : A) (l : list A) :
  (forall y, In y l -> (c1 x y <= 0 <-> c2 x y <= 0)) ->
  JsArray.insert c1 x l = JsArray.insert c2 x l.
Proof.
  induction l as [|y l IH]; simpl; intros H; [reflexivity|].
  assert (E : (c1 x y <=? 0) = (c2 x y <=? 0)).
  { destruct (H y (or_introl eq_refl)) as [H1 H2].
    destruct (c1 x y <=? 0) eqn:E1, (c2 x y <=? 0) eqn:E2;
      rewrite ?Z.leb_le, ?Z.leb_gt in *; try reflexivity; lia. }
  rewrite E. destruct (c2 x y <=? 0); [reflexivity|].
  rewrite IH; [reflexivity|]. intros z Hz. apply H. right. exact Hz.
Qed.

Lemma sort_ext (l : list A) :
  (forall a b, In a l -> In b l -> (c1 a b <= 0 <-> c2 a b <= 0)) ->
  JsArray.sort c1 l = JsArray.sort c2 l.
Proof.
  induction l as [|x l IH]; simpl; intros H; [reflexivity|].
  rewrite IH by (intros a b Ha Hb; apply H; right; assumption).
  apply insert_ext. intros y Hy. apply H; [left; reflexivity|].
  right. apply (Permutation_in _ (Permutation_sym (sort_perm c2 l))), Hy.
Qed.

End SortExt.

Lemma sorted_weaken {A : Type} (R1 R2 : A -> A -> Prop) (l : list A) :
  (forall a b, R1 a b -> R2 a b) ->
  StronglySorted R1 l -> StronglySorted R2 l.
Proof.
  intros H. induction 1 as [|x l Hs IH Hx]; constructor; [exact IH|].
  apply (Forall_impl _ (H x)), Hx.
Qed.

Lemma spec_compareStarts_consistent (zone : Z) :
  JsArray.consistent (spec_compareStarts zone).
Proof.
  split; unfold spec_compareStarts.
  - intros a b. apply spec_keyCompare_flip.
  - intros a b c. apply spec_keyCompare_trans.
Qed.

Lemma spec_startTime_utc (s : str) :
  spec_startTime 0 s
  = match SpecTime.instant s with Some z => z | None => 0 end.
Proof.
  unfold spec_startTime, spec_instantAt, SpecTime.instant.
  destruct (Nat.eqb (List.length s) 10); [|reflexivity].
  destruct (SpecTime.dateSeconds s); [|reflexivity]. lia.
Qed.

(** On well-formed start strings of one offset the comparator of
    [loadEvents] and the order of start times put the same event first. *)
Lemma compareEvents_start_times (zoneText : str) (zone : Z)
    (a b : CalendarEvent) :
  StartText.ZoneText zoneText zone ->
  (forall s t,
      StartText.WellFormed zoneText s -> StartText.WellFormed zoneText t ->
      (localeCompare s t <= 0 <-> codeUnitCompare s t <= 0)) ->
  StartText.WellFormed zoneText (startKey a) ->
  StartText.WellFormed zoneText (startKey b) ->
  (compareEvents a b <= 0 <-> spec_compareStarts zone a b <= 0).
Proof.
  intros Hz Hloc Ha Hb. unfold compareEvents, spec_compareStarts.
  cbv zeta. rewrite (Hloc _ _ Ha Hb).
  apply (wellFormed_compare_iff zoneText); assumption.
Qed.

(** C5, for fetch results whose start strings are well-formed
    ([YYYY-MM-DD] for an all-day event, [YYYY-MM-DDTHH:MM:SS] and a UTC
    offset for a timed one) and written with one offset.  The start key
    is read from the start string, which is [dateTime] when that is
    present and not empty, else [date], else the empty string.  When
    every fetch returns, the aggregate is the merged, tagged results in
    a stable order by start time, a date alone read as midnight of that
    date at the offset, with one rule for the tie of an all-day and a
    timed event: the all-day event goes first.  So the aggregate is a
    rearrangement of the merged results, ascending by start time; an
    all-day event stands before every timed event of its date, one at
    midnight included -- the all-day event of 2025-06-01 before the
    timed event of 2025-06-01T09:00 --; and events of one kind that start
    at the same instant keep their input order.  Written in UTC, the
    start time is the timestamp of the specification.  Of
    [localeCompare] the theorem assumes that on two such strings it puts
    first what the comparison by code units puts first. *)
Theorem C5_aggregate_sorted_by_start_time
    (zoneText : str) (zone : Z)
    (snap cur : DashState) (srv srv' : Server) (tr : list Effect)
    (merged : list CalendarEvent) :
  StartText.ZoneText zoneText zone ->
  Forall (fun e => StartText.WellFormed zoneText (startKey e)) merged ->
  (forall s t,
      StartText.WellFormed zoneText s -> StartText.WellFormed zoneText t ->
      (localeCompare s t <= 0 <-> codeUnitCompare s t <= 0)) ->
  selectedCalendarIds snap <> [] ->
  fetchLoop snap srv (selectedCalendarIds snap) [] = (srv', tr, Returned merged) ->
  let aggregate := events (fst (fst (loadEvents snap cur srv))) in
  let startTime := fun e => spec_startTime zone (startKey e) in
  let allDay := fun e => spec_startRank (startKey e) =? 0 in
  aggregate = spec_aggregateAt zone merged
  /\ Permutation merged aggregate
  /\ StronglySorted (fun a b => startTime a <= startTime b) aggregate
  /\ (forall a b D C,
        In a merged -> In b merged ->
        startKey a = StartText.dateText D ->
        startKey b
        = StartText.dateText D ++ StartText.clockText C ++ zoneText ->
        startTime a <= startTime b
        /\ exists l1 l2 l3, aggregate = l1 ++ a :: l2 ++ b :: l3)
  /\ (forall a b,
        In a merged -> In b merged ->
        startKey a = u "2025-06-01" ->
        startKey b = u "2025-06-01T09:00:00" ++ zoneText ->
        exists l1 l2 l3, aggregate = l1 ++ a :: l2 ++ b :: l3)
  /\ (forall instant kind,
        let sameKey := fun e =>
          (startTime e =? instant) && Bool.eqb (allDay e) kind in
        List.filter sameKey aggregate = List.filter sameKey merged)
  /\ (forall e,
        startKey e
        = match dateTime (start e), date (start e) with
          | Some (c :: s), _ => c :: s
          | _, Some (c :: s) => c :: s
          | _, _ => []
          end)
  /\ (zone = 0 -> forall e, startTime e = spec_startInstant e).
Proof.
  intros Hz Hwf Hloc Hne Hf. cbv zeta.
  rewrite (loadEvents_events _ cur _ _ _ _ Hne Hf). simpl.
  rewrite Forall_forall in Hwf.
  assert (Hsame :
    JsArray.sort compareEvents merged = spec_aggregateAt zone merged).
  { apply sort_ext. intros a b Ha Hb.
    apply (compareEvents_start_times zoneText); auto. }
  rewrite Hsame. unfold spec_aggregateAt.
  pose proof (spec_compareStarts_consistent zone) as Hcons.
  pose proof (sort_sorted _ Hcons merged) as Hsorted.
  assert (Hbefore : forall a b,
    In a merged -> In b merged ->
    codeUnitCompare (startKey a) (startKey b) < 0 ->
    exists l1 l2 l3,
      JsArray.sort (spec_compareStarts zone) merged
      = l1 ++ a :: l2 ++ b :: l3).
  { intros a b Ha Hb Hlt.
    apply (sorted_precedes _ Hcons); [exact Hsorted | | |].
    - apply (Permutation_in _ (sort_perm _ merged)), Ha.
    - apply (Permutation_in _ (sort_perm _ merged)), Hb.
    - apply (wellFormed_compare zoneText); auto. }
  split; [reflexivity|]. split; [apply sort_perm|].
  split; [|split; [|split; [|split; [|split]]]].
  - revert Hsorted. apply sorted_weaken. intros a b.
    unfold spec_compareStarts, spec_keyCompare.
    destruct (Z.eqb_spec (spec_startTime zone (startKey a))
                (spec_startTime zone (startKey b))); lia.
  - intros a b D C Ha Hb Ka Kb.
    assert (Hlt : codeUnitCompare (startKey a) (startKey b) < 0).
    { rewrite Ka, Kb.
      apply (codeUnitCompare_prefix (StartText.dateText D)
               (tl (StartText.clockText C) ++ zoneText)). }
    split; [|apply Hbefore; assumption].
    pose proof (wellFormed_compare zoneText zone _ _ Hz
                  (Hwf a Ha) (Hwf b Hb) Hlt) as Hk.
    unfold spec_keyCompare in Hk.
    destruct (Z.eqb_spec (spec_startTime zone (startKey a))
                (spec_startTime zone (startKey b))); lia.
  - intros a b Ha Hb Ka Kb. apply Hbefore; [exact Ha | exact Hb |].
    rewrite Ka, Kb.
    apply (codeUnitCompare_prefix (u "2025-06-01") (u "09:00:00" ++ zoneText)).
  - intros instant kind. apply sort_stable. intros a b Pa Pb.
    apply andb_true_iff in Pa, Pb.
    destruct Pa as [Ta Ra], Pb as [Tb Rb].
    apply Z.eqb_eq in Ta, Tb. apply Bool.eqb_prop in Ra, Rb.
    unfold spec_compareStarts, spec_keyCompare.
    rewrite Ta, Tb, Z.eqb_refl.
    assert (E : (spec_startRank (startKey a) =? 0)
                = (spec_startRank (startKey b) =? 0))
      by (rewrite Ra, Rb; reflexivity).
    revert E. unfold spec_startRank.
    destruct (Nat.eqb (List.length (startKey a)) 10),
      (Nat.eqb (List.length (startKey b)) 10); simpl; intros E;
      first [lia | discriminate E].
  - intros e. unfold startKey, or_empty, or_else.
    destruct (dateTime (start e)) as [[|c s]|];
      destruct (date (start e)) as [[|c' s']|]; reflexivity.
  - intros -> e. unfold spec_startInstant. apply spec_startTime_utc.
Qed.

Lemma loadCalendars_calendars (cur : DashState) (srv srv' : Server)
    (fetched : list Calendar) :
  api_getCalendars srv = (srv', Returned fetched) ->
  calendars (fst (fst (loadCalendars cur srv)))
  = JsArray.sort compareCalendars fetched.
Proof.
  intros H. unfold loadCalendars. rewrite H. simpl.
  destruct (find primary _); [reflexivity|].
  destruct (JsArray.sort compareCalendars fetched); reflexivity.
Qed.

(** C10: the loaded calendar list is a rearrangement of the fetched one
    in which no calendar without the primary flag stands before one with
    it, and two calendars of the same primary status stand in the order
    of [localeCompare] on their display names.  The display name is the
    override when there is a non-empty one, else the provider's summary
    when that is non-empty, else the empty string. *)
Theorem C10_calendars_primary_first_then_by_name
    (cur : DashState) (srv srv' : Server) (fetched : list Calendar) :
  JsArray.consistent localeCompare ->
  api_getCalendars srv = (srv', Returned fetched) ->
  let sorted := calendars (fst (fst (loadCalendars cur srv))) in
  Permutation fetched sorted
  /\ (forall l1 a l2 b l3,
        sorted = l1 ++ a :: l2 ++ b :: l3 ->
        (primary b = true -> primary a = true)
        /\ (primary a = primary b ->
            localeCompare (displayName a) (displayName b) <= 0))
  /\ (forall c s, summaryOverride c = Some s -> s <> [] -> displayName c = s)
  /\ (forall c s,
        summaryOverride c = None \/ summaryOverride c = Some [] ->
        cal_summary c = Some s -> s <> [] -> displayName c = s)
  /\ (forall c,
        summaryOverride c = None \/ summaryOverride c = Some [] ->
        cal_summary c = None \/ cal_summary c = Some [] ->
        displayName c = []).
Proof.
  intros Hcons Hget. cbv zeta. rewrite (loadCalendars_calendars _ _ _ _ Hget).
  pose proof (compareCalendars_consistent Hcons) as Hcc.
  split; [apply sort_perm|]. split; [|split; [|split]].
  - intros l1 a l2 b l3 E.
    pose proof (sort_sorted compareCalendars Hcc fetched) as Hs.
    rewrite E in Hs. apply sorted_split in Hs.
    unfold compareCalendars in Hs.
    destruct (primary a), (primary b); simpl in Hs; split;
      intros; try congruence; try lia.
  - intros c s E Hne. unfold displayName. rewrite E.
    destruct s; [contradiction | reflexivity].
  - intros c s [E | E] Es Hne; unfold displayName; rewrite E, Es;
      destruct s; try contradiction; reflexivity.
  - intros c [E | E] [Es | Es]; unfold displayName; rewrite E, Es;
      reflexivity.
Qed.

(* ================================================================== *)
(** ** The delete handler: partition by calendar *)

Section MapFacts.
Context {V : Type}.

Lemma get_set_same (m : JsMap.t V) (k : str) (v : V) :
  JsMap.get (JsMap.set m k v) k = Some v.
Proof.
  induction m as [|[k' v'] m IH]; simpl.
  - rewrite str_eqb_refl. reflexivity.
  - destruct (str_eqb k' k) eqn:E; simpl; rewrite E; [reflexivity | exact IH].
Qed.

Lemma get_set_other (m : JsMap.t V) (k k' : str) (v : V) :
  k <> k' -> JsMap.get (JsMap.set m k v) k' = JsMap.get m k'.
Proof.
  intros Hne. induction m as [|[k0 v0] m IH]; simpl.
  - apply str_eqb_neq in Hne. rewrite Hne. reflexivity.
  - destruct (str_eqb k0 k) eqn:E; simpl.
    + apply str_eqb_eq in E. subst k0.
      apply str_eqb_neq in Hne. rewrite Hne. reflexivity.
    + rewrite IH. reflexivity.
Qed.

Lemma set_keys (m : JsMap.t V) (k : str) (v : V) :
  map fst (JsMap.set m k v)
  = if existsb (str_eqb k) (map fst m) then map fst m else map fst m ++ [k].
Proof.
  induction m as [|[k' v'] m IH]; simpl; [reflexivity|].
  destruct (str_eqb k' k) eqn:E; simpl.
  - apply str_eqb_eq in E. subst. rewrite str_eqb_refl. reflexivity.
  - assert (E' : str_eqb k k' = false).
    { apply str_eqb_neq. apply str_eqb_neq in E. congruence. }
    rewrite E', IH. simpl.
    destruct (existsb (str_eqb k) (map fst m)); reflexivity.
Qed.

Lemma set_keys_NoDup (m : JsMap.t V) (k : str) (v : V) :
  NoDup (map fst m) -> NoDup (map fst (JsMap.set m k v)).
Proof.
  intros H. rewrite set_keys.
  destruct (existsb (str_eqb k) (map fst m)) eqn:E; [exact H|].
  apply NoDup_app; [exact H | repeat constructor; intros [] |].
  intros y Hy [<- | []].
  assert (existsb (str_eqb k) (map fst m) = true); [|congruence].
  apply existsb_exists. exists k. split; [exact Hy | apply str_eqb_refl].
Qed.

Lemma In_get (m : JsMap.t V) (k : str) (v : V) :
  NoDup (map fst m) -> (In (k, v) m <-> JsMap.get m k = Some v).
Proof.
  induction m as [|[k' v'] m IH]; simpl; intros Hnd.
  - split; [intros [] | discriminate].
  - inversion Hnd as [|? ? Hnot Hnd']; subst.
    destruct (str_eqb k' k) eqn:E.
    + apply str_eqb_eq in E. subst k'. split.
      * intros [H | H]; [congruence|].
        exfalso. apply Hnot. apply (in_map fst) in H. exact H.
      * intros H. left. congruence.
    + apply str_eqb_neq in E. rewrite <- (IH Hnd'). split.
      * intros [H | H]; [congruence | exact H].
      * auto.
Qed.

End MapFacts.

(** What [set] after [get || []] and [push] does to the members. *)
Lemma push_members (m : JsMap.t (list str)) (c cal x y : str) :
  (exists l,
      JsMap.get
        (JsMap.set m c
           (match JsMap.get m c with Some l => l | None => [] end ++ [y]))
        cal = Some l
      /\ In x l)
  <-> (exists l, JsMap.get m cal = Some l /\ In x l) \/ (cal = c /\ x = y).
Proof.
  destruct (list_eq_dec N.eq_dec c cal) as [<- | Hne].
  - rewrite get_set_same. split.
    + intros [l [E Hx]]. inversion E; subst. apply in_app_or in Hx.
      destruct Hx as [Hx | [-> | []]]; [left | right; auto].
      destruct (JsMap.get m c) as [l|]; [|destruct Hx].
      exists l. auto.
    + intros [[l [E Hx]] | [_ ->]]; eexists; split; try reflexivity;
        apply in_or_app.
      * rewrite E. left. exact Hx.
      * right. left. reflexivity.
  - rewrite (get_set_other _ _ _ _ Hne). split; [auto|].
    intros [H | [E _]]; [exact H | congruence].
Qed.

Lemma group_members (evs : list CalendarEvent) (ids : list str)
    (m : JsMap.t (list str)) (cal x : str) :
  (exists l, JsMap.get (groupByCalendar evs ids m) cal = Some l /\ In x l)
  <-> (exists l, JsMap.get m cal = Some l /\ In x l)
      \/ (In x ids
          /\ exists e, findEvent evs x = Some e /\ calendarId e = cal).
Proof.
  revert m. induction ids as [|y ids IH]; intros m; simpl.
  - split; [auto | intros [H | [[] _]]; exact H].
  - fold (findEvent evs y). destruct (findEvent evs y) as [event|] eqn:F.
    + rewrite IH, push_members. split.
      * intros [[H | [Ec Ex]] | [Hx He]].
        -- left. exact H.
        -- right. subst cal x. split; [left; reflexivity|].
           exists event. split; [exact F | reflexivity].
        -- right. split; [right; exact Hx | exact He].
      * intros [H | [[Ey | Hx] [e [Fe Ee]]]].
        -- left. left. exact H.
        -- subst y. left. right. split; congruence.
        -- right. split; [exact Hx | exists e; split; assumption].
    + rewrite IH. split.
      * intros [H | [Hx He]]; [left; exact H|].
        right. split; [right; exact Hx | exact He].
      * intros [H | [[Ey | Hx] [e [Fe Ee]]]].
        -- left. exact H.
        -- subst y. congruence.
        -- right. split; [exact Hx | exists e; split; assumption].
Qed.

Lemma group_keys_NoDup (evs : list CalendarEvent) (ids : list str)
    (m : JsMap.t (list str)) :
  NoDup (map fst m) -> NoDup (map fst (groupByCalendar evs ids m)).
Proof.
  revert m. induction ids as [|y ids IH]; intros m H; simpl; [exact H|].
  destruct (find _ evs); [|apply IH, H].
  apply IH, set_keys_NoDup, H.
Qed.

Lemma set_nonempty (m : JsMap.t (list str)) (k : str) (v : list str) :
  v <> [] -> Forall (fun b => snd b <> []) m ->
  Forall (fun b => snd b <> []) (JsMap.set m k v).
Proof.
  intros Hv. induction 1 as [|[k' v'] m Hb Hm IH]; simpl.
  - repeat constructor. exact Hv.
  - destruct (str_eqb k' k); constructor; auto.
Qed.

Lemma group_nonempty (evs : list CalendarEvent) (ids : list str)
    (m : JsMap.t (list str)) :
  Forall (fun b => snd b <> []) m ->
  Forall (fun b => snd b <> []) (groupByCalendar evs ids m).
Proof.
  revert m. induction ids as [|y ids IH]; intros m H; simpl; [exact H|].
  destruct (find _ evs); [|apply IH, H].
  apply IH, set_nonempty; [|exact H].
  intros E. apply app_eq_nil in E. destruct E; discriminate.
Qed.

Lemma group_resolvable_only (evs : list CalendarEvent) (ids : list str)
    (m : JsMap.t (list str)) :
  groupByCalendar evs (List.filter (resolvable evs) ids) m
  = groupByCalendar evs ids m.
Proof.
  revert m. induction ids as [|y ids IH]; intros m; simpl; [reflexivity|].
  unfold resolvable at 1. fold (findEvent evs y).
  destruct (findEvent evs y) as [event|] eqn:F; [|apply IH].
  simpl. fold (findEvent evs y). rewrite F. apply IH.
Qed.

(** C6: the partition step.  A batch holds exactly the selected ids whose
    event, found in the aggregate by id, belongs to the batch's calendar;
    each such id is in the batch of that calendar.  A selected id that no
    event of the aggregate bears is in no batch, and the delete loop, its
    calls and its succeeded and failed totals are those of the selection
    without such ids.  Batches are per calendar and never empty. *)
Theorem C6_partition_by_owning_calendar
    (evs : list CalendarEvent) (selection : list str) :
  let batches := groupByCalendar evs selection [] in
  (forall cal ids x,
      In (cal, ids) batches -> In x ids ->
      In x selection
      /\ exists e, findEvent evs x = Some e /\ calendarId e = cal)
  /\ (forall x e,
        In x selection -> findEvent evs x = Some e ->
        exists ids, In (calendarId e, ids) batches /\ In x ids)
  /\ (forall x,
        findEvent evs x = None ->
        forall cal ids, In (cal, ids) batches -> ~ In x ids)
  /\ groupByCalendar evs (List.filter (resolvable evs) selection) [] = batches
  /\ (forall srv,
        deleteLoop srv
          (groupByCalendar evs (List.filter (resolvable evs) selection) [])
          0 0
        = deleteLoop srv batches 0 0)
  /\ NoDup (map fst batches)
  /\ Forall (fun b => snd b <> []) batches.
Proof.
  cbv zeta.
  assert (Hnd : NoDup (map fst (groupByCalendar evs selection [])))
    by (apply group_keys_NoDup; constructor).
  assert (Hin : forall cal ids x,
    In (cal, ids) (groupByCalendar evs selection []) -> In x ids ->
    In x selection
    /\ exists e, findEvent evs x = Some e /\ calendarId e = cal).
  { intros cal ids x Hb Hx. apply (In_get _ _ _ Hnd) in Hb.
    destruct (proj1 (group_members evs selection [] cal x)) as [H | H];
      [eauto | | exact H].
    destruct H as [l [E _]]. discriminate. }
  split; [exact Hin|]. split; [|split; [|split; [|split; [|split]]]].
  - intros x e Hx He.
    destruct (proj2 (group_members evs selection [] (calendarId e) x))
      as [l [E Hl]]; [right; eauto|].
    exists l. split; [|exact Hl]. apply (In_get _ _ _ Hnd), E.
  - intros x Hnone cal ids Hb Hx.
    destruct (Hin cal ids x Hb Hx) as [_ [e [He _]]]. congruence.
  - apply group_resolvable_only.
  - intros srv. rewrite group_resolvable_only. reflexivity.
  - exact Hnd.
  - apply group_nonempty. constructor.
Qed.

(* ================================================================== *)
(** ** The delete handler: the loop over the calendars *)

Lemma deleteLoop_app (srv srv1 : Server) (pre rest : JsMap.t (list str))
    (results : list DeleteResult) (s f : Z) :
  AllReturned srv pre results srv1 ->
  deleteLoop srv (pre ++ rest) s f
  = let '(srv', tr, r) :=
      deleteLoop srv1 rest
        (s + sumZ (map succeeded results)) (f + sumZ (map failed results)) in
    (srv', deleteCalls pre ++ tr, r).
Proof.
  intros H. revert s f. induction H as [srv | srv cid eventIds pre result
    srv' results srv'' Hcall Hrest IH]; intros s f; simpl.
  - rewrite !Z.add_0_r. destruct (deleteLoop srv rest s f) as [[? ?] ?].
    reflexivity.
  - rewrite Hcall, IH. rewrite !Z.add_assoc.
    destruct (deleteLoop srv'' rest _ _) as [[? ?] ?]. reflexivity.
Qed.

Lemma deleteLoop_all_returned (srv srv1 : Server)
    (batches : JsMap.t (list str)) (results : list DeleteResult) :
  AllReturned srv batches results srv1 ->
  deleteLoop srv batches 0 0
  = (srv1, deleteCalls batches,
     Returned (sumZ (map succeeded results), sumZ (map failed results))).
Proof.
  intros H. rewrite <- (app_nil_r batches) at 1.
  rewrite (deleteLoop_app _ _ _ _ _ _ _ H). simpl.
  rewrite app_nil_r. reflexivity.
Qed.

Lemma deleteLoop_thrown (srv srv1 srv2 : Server)
    (pre post : JsMap.t (list str)) (cid : str) (eventIds : list str)
    (results : list DeleteResult) (e : ApiError) :
  AllReturned srv pre results srv1 ->
  api_deleteEvents srv1 cid eventIds = (srv2, Thrown e) ->
  deleteLoop srv (pre ++ (cid, eventIds) :: post) 0 0
  = (srv2, deleteCalls pre ++ [CallDeleteEvents cid eventIds], Thrown e).
Proof.
  intros H Hcall. rewrite (deleteLoop_app _ _ _ _ _ _ _ H). simpl.
  rewrite Hcall. reflexivity.
Qed.

Lemma app_disjoint (l1 l2 : list str) (x : str) :
  NoDup (l1 ++ l2) -> In x l1 -> ~ In x l2.
Proof.
  induction l1 as [|a l1 IH]; simpl; intros Hnd Hx; [destruct Hx|].
  inversion Hnd as [|? ? Hnot Hnd']; subst.
  destruct Hx as [-> | Hx]; [|apply IH; assumption].
  intros H. apply Hnot, in_or_app. right. exact H.
Qed.

Lemma deleteCalls_In (batches : JsMap.t (list str)) (cid : str)
    (eventIds : list str) :
  In (CallDeleteEvents cid eventIds) (deleteCalls batches) ->
  In cid (map fst batches).
Proof.
  unfold deleteCalls. rewrite in_map_iff. intros [[c i] [E H]].
  simpl in E. inversion E; subst. apply (in_map fst) in H. exact H.
Qed.

(** C3: when a per-calendar [deleteEvents] call is rejected (with an
    expired token or any other error) after the calls before it returned,
    the calls dispatched are those up to the rejected one and no batch
    after it is sent, the selection and the aggregate are left as they
    were, and no refresh is started; for an expired token the logout is
    scheduled. *)
Theorem C3_rejected_delete_keeps_selection
    (st : DashState) (srv srv1 srv2 : Server)
    (pre post : JsMap.t (list str)) (cid : str) (eventIds : list str)
    (results : list DeleteResult) (e : ApiError) :
  groupByCalendar (events st) (selectedIds st) []
  = pre ++ (cid, eventIds) :: post ->
  AllReturned srv pre results srv1 ->
  api_deleteEvents srv1 cid eventIds = (srv2, Thrown e) ->
  let after := fst (fst (handleDelete st srv)) in
  let trace := snd (handleDelete st srv) in
  selectedIds after = selectedIds st
  /\ events after = events st
  /\ snd (fst (handleDelete st srv)) = srv2
  /\ trace
     = deleteCalls pre ++ [CallDeleteEvents cid eventIds]
       ++ (if isTokenExpired e then [ScheduleLogout] else [])
  /\ (forall b, In b post ->
                ~ In (CallDeleteEvents (fst b) (snd b)) trace)
  /\ (forall c n tmin tmax, ~ In (CallGetEvents c n tmin tmax) trace)
  /\ (isTokenExpired e = true -> toast after = sessionExpiredToast).
Proof.
  intros Hgroup Hpre Hcall. cbv zeta.
  assert (Hrun : handleDelete st srv
    = (setDeleting false
         (setToast
            (if isTokenExpired e then sessionExpiredToast
             else Some {| message := MsgDeleteFailed; type := error |})
            (setDeleting true st)),
       srv2,
       deleteCalls pre ++ [CallDeleteEvents cid eventIds]
       ++ (if isTokenExpired e then [ScheduleLogout] else []))).
  { unfold handleDelete. rewrite Hgroup.
    rewrite (deleteLoop_thrown _ _ _ _ _ _ _ _ _ Hpre Hcall).
    destruct (isTokenExpired e); rewrite <- ?app_assoc, ?app_nil_r;
      reflexivity. }
  rewrite Hrun. simpl fst. simpl snd.
  assert (Hkeys : NoDup (map fst pre ++ cid :: map fst post)).
  { change (cid :: map fst post) with (map fst ((cid, eventIds) :: post)).
    rewrite <- map_app, <- Hgroup. apply group_keys_NoDup. constructor. }
  split; [destruct (isTokenExpired e); reflexivity|].
  split; [destruct (isTokenExpired e); reflexivity|].
  split; [reflexivity|]. split; [reflexivity|].
  split; [|split].
  - intros [c i] Hb Hin. simpl in Hin.
    apply (in_map fst) in Hb. simpl in Hb.
    apply in_app_or in Hin. destruct Hin as [Hin | [E | Hin]].
    + apply deleteCalls_In in Hin.
      apply (app_disjoint _ _ _ Hkeys Hin). right. exact Hb.
    + inversion E; subst c i.
      apply NoDup_remove_2 in Hkeys. apply Hkeys.
      apply in_or_app. right. exact Hb.
    + destruct (isTokenExpired e); simpl in Hin;
        [destruct Hin as [E | []]; discriminate | destruct Hin].
  - intros c n tmin tmax Hin.
    apply in_app_or in Hin. destruct Hin as [Hin | [E | Hin]].
    + unfold deleteCalls in Hin. apply in_map_iff in Hin.
      destruct Hin as [b [E _]]. discriminate.
    + discriminate.
    + destruct (isTokenExpired e); simpl in Hin;
        [destruct Hin as [E | []]; discriminate | destruct Hin].
  - intros E. rewrite E. reflexivity.
Qed.

Lemma loadEvents_toast_on_success (snap cur : DashState) (srv srv' : Server)
    (tr : list Effect) (merged : list CalendarEvent) :
  selectedCalendarIds snap <> [] ->
  fetchLoop snap srv (selectedCalendarIds snap) [] = (srv', tr, Returned merged) ->
  toast (fst (fst (loadEvents snap cur srv))) = toast cur.
Proof.
  intros Hne Hf. rewrite (loadEvents_events _ cur _ _ _ _ Hne Hf).
  reflexivity.
Qed.

(** C9: when every per-calendar [deleteEvents] call returns, then
    whatever the failed counts are, the handler clears the selection and
    runs [loadEvents] on the server as the deletes left it; the counts it
    reports are the sums of the succeeded and of the failed counts of the
    per-calendar results.  When the refresh fetches return, the aggregate
    is the newly fetched one and the report stays on display. *)
Theorem C9_completed_delete_clears_and_refreshes
    (st : DashState) (srv srv1 : Server) (results : list DeleteResult) :
  AllReturned srv (groupByCalendar (events st) (selectedIds st) [])
    results srv1 ->
  let batches := groupByCalendar (events st) (selectedIds st) [] in
  let totalSucceeded := sumZ (map succeeded results) in
  let totalFailed := sumZ (map failed results) in
  let reported :=
    setShowDeleteModal false
      (setSelectedIds []
         (setToast (deleteToast totalSucceeded totalFailed)
            (setDeleting true st))) in
  let refresh := loadEvents st reported srv1 in
  handleDelete st srv
  = (setDeleting false (fst (fst refresh)), snd (fst refresh),
     deleteCalls batches ++ snd refresh)
  /\ selectedIds (fst (fst (handleDelete st srv))) = []
  /\ deleteLoop srv batches 0 0
     = (srv1, deleteCalls batches, Returned (totalSucceeded, totalFailed))
  /\ (0 < totalFailed ->
      toast reported
      = Some {| message := MsgDeletedWithFailures totalSucceeded totalFailed;
                type := error |})
  /\ (totalFailed <= 0 ->
      toast reported
      = Some {| message := MsgDeleted totalSucceeded; type := success |})
  /\ (forall srv2 tr merged,
        selectedCalendarIds st <> [] ->
        fetchLoop st srv1 (selectedCalendarIds st) []
        = (srv2, tr, Returned merged) ->
        events (fst (fst (handleDelete st srv)))
        = JsArray.sort compareEvents merged
        /\ toast (fst (fst (handleDelete st srv)))
           = deleteToast totalSucceeded totalFailed
        /\ snd (handleDelete st srv) = deleteCalls batches ++ tr).
Proof.
  intros Hall. cbv zeta.
  pose proof (deleteLoop_all_returned _ _ _ _ Hall) as Hloop.
  assert (Hrun : handleDelete st srv
    = (setDeleting false
         (fst (fst (loadEvents st
            (setShowDeleteModal false
               (setSelectedIds []
                  (setToast
                     (deleteToast (sumZ (map succeeded results))
                        (sumZ (map failed results)))
                     (setDeleting true st)))) srv1))),
       snd (fst (loadEvents st
            (setShowDeleteModal false
               (setSelectedIds []
                  (setToast
                     (deleteToast (sumZ (map succeeded results))
                        (sumZ (map failed results)))
                     (setDeleting true st)))) srv1)),
       deleteCalls (groupByCalendar (events st) (selectedIds st) [])
       ++ snd (loadEvents st
            (setShowDeleteModal false
               (setSelectedIds []
                  (setToast
                     (deleteToast (sumZ (map succeeded results))
                        (sumZ (map failed results)))
                     (setDeleting true st)))) srv1))).
  { unfold handleDelete. rewrite Hloop.
    destruct (loadEvents _ _ _) as [[cur3 srv3] tr3]. reflexivity. }
  split; [exact Hrun|]. split; [|split; [exact Hloop|split; [|split]]].
  - rewrite Hrun. simpl. rewrite loadEvents_selectedIds. reflexivity.
  - intros Hpos. simpl. unfold deleteToast.
    apply Z.ltb_lt in Hpos. rewrite Hpos. reflexivity.
  - intros Hle. simpl. unfold deleteToast.
    destruct (0 <? sumZ (map failed results)) eqn:E; [|reflexivity].
    apply Z.ltb_lt in E. lia.
  - intros srv2 tr merged Hne Hf. rewrite Hrun. simpl.
    rewrite (loadEvents_toast_on_success _ _ _ _ _ _ Hne Hf).
    rewrite (loadEvents_events _ _ _ _ _ _ Hne Hf). simpl.
    repeat split.
Qed.

(* ================================================================== *)
(** ** The keyboard hook *)

(** X1: typing is not hijacked: while the focus is in an input, a textarea or
    an editable element, a key other than Escape and Ctrl/Cmd+F calls no
    handler and leaves the browser's default action in place. *)
Theorem keyboard_typing_is_not_hijacked
    {S : Type} (handlers : KeyboardShortcuts.KeyboardShortcutHandlers S)
    (event : KeyboardShortcuts.KeyboardEvent) (s : S) :
  KeyboardShortcuts.isInputFocused event = true ->
  KeyboardShortcuts.key event <> u "Escape" ->
  ~ (KeyboardShortcuts.isMod event = true
     /\ KeyboardShortcuts.key event = u "f") ->
  KeyboardShortcuts.handleKeyDown handlers event s = (s, false).
Proof.
  forget_runtime.
  intros Hin Hesc Hfind. unfold KeyboardShortcuts.handleKeyDown.
  apply str_eqb_neq in Hesc. rewrite Hesc, Hin.
  destruct (KeyboardShortcuts.isMod event) eqn:Em;
    destruct (str_eqb (KeyboardShortcuts.key event) (u "f")) eqn:Ef;
    cbn [negb andb orb]; rewrite ?andb_false_r; try reflexivity.
  exfalso. apply Hfind. split; [reflexivity | apply str_eqb_eq, Ef].
Qed.

(** X2: one key press calls at most one handler.  Escape calls [onEscape],
    wherever the focus is, and keeps the default action; for every other
    key, a handler is called only together with [preventDefault]. *)
Theorem keyboard_one_handler_and_default
    {S : Type} (handlers : KeyboardShortcuts.KeyboardShortcutHandlers S)
    (event : KeyboardShortcuts.KeyboardEvent) (s : S) :
  let after := KeyboardShortcuts.handleKeyDown handlers event s in
  In (fst after)
    (map (fun h => KeyboardShortcuts.callIfPresent h s)
       [None; KeyboardShortcuts.onEscape handlers;
        KeyboardShortcuts.onShowShortcuts handlers;
        KeyboardShortcuts.onSelectAll handlers;
        KeyboardShortcuts.onDelete handlers;
        KeyboardShortcuts.onFocusSearch handlers])
  /\ (KeyboardShortcuts.key event = u "Escape" ->
      after
      = (KeyboardShortcuts.callIfPresent
           (KeyboardShortcuts.onEscape handlers) s, false))
  /\ (KeyboardShortcuts.key event <> u "Escape" ->
      snd after = false -> fst after = s).
Proof.
  forget_runtime.
  cbv zeta. unfold KeyboardShortcuts.handleKeyDown.
  destruct (str_eqb (KeyboardShortcuts.key event) (u "Escape")) eqn:Eesc.
  - split; [simpl; auto|]. split; [reflexivity|].
    intros Hne. apply str_eqb_eq in Eesc. contradiction.
  - split; [|split].
    + repeat match goal with
        | |- context [if ?c then _ else _] => destruct c
        end; simpl; auto 10.
    + intros E. apply str_eqb_neq in Eesc. contradiction.
    + intros _.
      repeat match goal with
        | |- context [if ?c then _ else _] => destruct c
        end; simpl; intros; congruence.
Qed.

(* ================================================================== *)
(** ** The component's keyboard shortcuts *)

(** X3: the only key press that changes the selection is Ctrl/Cmd+A outside
    an input, while nothing is loading and some event is visible. *)
Theorem keydown_changes_selection_by_select_all_only
    (ui : Ui) (event : KeyboardShortcuts.KeyboardEvent) :
  selectedIds (dash (fst (onKeyDown ui event))) <> selectedIds (dash ui) ->
  KeyboardShortcuts.isMod event = true
  /\ KeyboardShortcuts.key event = u "a"
  /\ KeyboardShortcuts.isInputFocused event = false
  /\ loading (dash ui) = false
  /\ visibleEvents (dash ui) <> [].
Proof.
  unfold onKeyDown, KeyboardShortcuts.handleKeyDown.
  destruct (str_eqb (KeyboardShortcuts.key event) (u "Escape")).
  { simpl. unfold shortcutEscape.
    repeat match goal with
      | |- context [if ?c then _ else _] => destruct c
      end; simpl; intros H; contradiction H; reflexivity. }
  destruct (str_eqb (KeyboardShortcuts.key event) (u "?") && negb (KeyboardShortcuts.isInputFocused event)).
  { simpl. intros H; contradiction H; reflexivity. }
  destruct (KeyboardShortcuts.isMod event && str_eqb (KeyboardShortcuts.key event) (u "a")
            && negb (KeyboardShortcuts.isInputFocused event)) eqn:Ea.
  { simpl. unfold shortcutSelectAll.
    destruct (negb (loading (dash ui))
              && (0 <? Z.of_nat (List.length (visibleEvents (dash ui)))))
      eqn:Eg; [|intros H; contradiction H; reflexivity].
    intros _. apply andb_true_iff in Ea. destruct Ea as [Ea Ein].
    apply andb_true_iff in Ea. destruct Ea as [Em Ek].
    apply andb_true_iff in Eg. destruct Eg as [El Ev].
    split; [exact Em|]. split; [apply str_eqb_eq, Ek|].
    split; [destruct (KeyboardShortcuts.isInputFocused event);
            [discriminate | reflexivity]|].
    split; [destruct (loading (dash ui)); [discriminate | reflexivity]|].
    apply Z.ltb_lt in Ev. intros E. rewrite E in Ev. simpl in Ev. lia. }
  destruct ((str_eqb (KeyboardShortcuts.key event) (u "Delete")
             || str_eqb (KeyboardShortcuts.key event) (u "Backspace"))
            && negb (KeyboardShortcuts.isInputFocused event)).
  { simpl. unfold shortcutDelete.
    destruct ((0 <? Z.of_nat (JsSet.size (selectedIds (dash ui))))
              && negb (showDeleteModal (dash ui)));
      simpl; intros H; contradiction H; reflexivity. }
  destruct (KeyboardShortcuts.isMod event && str_eqb (KeyboardShortcuts.key event) (u "f")).
  { simpl. intros H; contradiction H; reflexivity. }
  destruct (str_eqb (KeyboardShortcuts.key event) (u "/") && negb (KeyboardShortcuts.isInputFocused event)); simpl; intros H; contradiction H; reflexivity.
Qed.

(** X4: a key press never touches the calendars, the aggregate, the search
    query, the time window, the toast or the loading and deleting flags. *)
Theorem keydown_leaves_data_alone
    (ui : Ui) (event : KeyboardShortcuts.KeyboardEvent) :
  let after := dash (fst (onKeyDown ui event)) in
  calendars after = calendars (dash ui)
  /\ selectedCalendarIds after = selectedCalendarIds (dash ui)
  /\ events after = events (dash ui)
  /\ searchQuery after = searchQuery (dash ui)
  /\ timeMin after = timeMin (dash ui)
  /\ timeMax after = timeMax (dash ui)
  /\ toast after = toast (dash ui)
  /\ loading after = loading (dash ui)
  /\ deleting after = deleting (dash ui).
Proof.
  cbv zeta. unfold onKeyDown, KeyboardShortcuts.handleKeyDown.
  repeat first
    [ match goal with
      | |- context [if ?c then _ else _] => destruct c
      end
    | progress simpl
    | progress unfold shortcutEscape, shortcutSelectAll, shortcutDelete,
        handleSelectAll, withDash ];
    repeat split.
Qed.

(** X5: Escape closes one modal at a time, the delete confirmation before
    the About dialog before the shortcuts help, and nothing else: the
    selection stays, the default action stays.  Three presses close
    whatever is open. *)
Theorem escape_closes_the_topmost_modal
    (ui : Ui) (event : KeyboardShortcuts.KeyboardEvent) :
  KeyboardShortcuts.key event = u "Escape" ->
  let after := fst (onKeyDown ui event) in
  openModals after = Nat.pred (openModals ui)
  /\ (showDeleteModal (dash ui) = true ->
      showDeleteModal (dash after) = false
      /\ showAbout after = showAbout ui
      /\ showKeyboardShortcuts after = showKeyboardShortcuts ui)
  /\ (showDeleteModal (dash ui) = false -> showAbout ui = true ->
      showAbout after = false
      /\ showKeyboardShortcuts after = showKeyboardShortcuts ui)
  /\ selectedIds (dash after) = selectedIds (dash ui)
  /\ snd (onKeyDown ui event) = false
  /\ openModals
       (fst (onKeyDown (fst (onKeyDown after event)) event)) = 0%nat.
Proof.
  intros Hk. cbv zeta.
  unfold onKeyDown, KeyboardShortcuts.handleKeyDown.
  rewrite Hk. simpl.
  unfold shortcutEscape, openModals.
  destruct ui as [st about help focus].
  destruct st as [cals chosen evs marked busy confirm del note tmin tmax q].
  destruct confirm, about, help; simpl; repeat split; intros; congruence.
Qed.

(** X6: the Delete and Backspace keys open the delete confirmation exactly
    when some event is marked and the focus is not in an input; with an
    empty selection no key opens it. *)
Theorem delete_key_needs_a_selection
    (ui : Ui) (event : KeyboardShortcuts.KeyboardEvent) :
  showDeleteModal (dash ui) = false ->
  (showDeleteModal (dash (fst (onKeyDown ui event))) = true
   <-> (KeyboardShortcuts.key event = u "Delete"
        \/ KeyboardShortcuts.key event = u "Backspace")
       /\ KeyboardShortcuts.isInputFocused event = false
       /\ selectedIds (dash ui) <> []).
Proof.
  intros Hclosed. split.
  - unfold onKeyDown, KeyboardShortcuts.handleKeyDown.
    destruct (str_eqb (KeyboardShortcuts.key event) (u "Escape")).
    { simpl. unfold shortcutEscape. rewrite Hclosed.
      destruct (showAbout ui); [simpl; congruence|].
      destruct (showKeyboardShortcuts ui); simpl; congruence. }
    destruct (str_eqb (KeyboardShortcuts.key event) (u "?") && negb (KeyboardShortcuts.isInputFocused event)); [simpl; congruence|].
    destruct (KeyboardShortcuts.isMod event && str_eqb (KeyboardShortcuts.key event) (u "a")
            && negb (KeyboardShortcuts.isInputFocused event)).
    { repeat first
        [ match goal with
          | |- context [if ?c then _ else _] => destruct c
          end
        | progress simpl
        | progress unfold shortcutSelectAll, handleSelectAll, withDash ];
        congruence. }
    destruct ((str_eqb (KeyboardShortcuts.key event) (u "Delete")
             || str_eqb (KeyboardShortcuts.key event) (u "Backspace"))
            && negb (KeyboardShortcuts.isInputFocused event)) eqn:Ed.
    { simpl. unfold shortcutDelete. intros Hopen.
      apply andb_true_iff in Ed. destruct Ed as [Ek Ein].
      apply orb_true_iff in Ek.
      split; [destruct Ek as [Ek | Ek]; apply str_eqb_eq in Ek; auto|].
      split; [destruct (KeyboardShortcuts.isInputFocused event);
              [discriminate | reflexivity]|].
      intros Hnil. rewrite Hnil, Hclosed in Hopen. simpl in Hopen.
      congruence. }
    destruct (KeyboardShortcuts.isMod event && str_eqb (KeyboardShortcuts.key event) (u "f")); [simpl; congruence|].
    destruct (str_eqb (KeyboardShortcuts.key event) (u "/") && negb (KeyboardShortcuts.isInputFocused event)); simpl; congruence.
  - intros [Hk [Hin Hsel]].
    assert (Hguard :
      (0 <? Z.of_nat (JsSet.size (selectedIds (dash ui))))
      && negb (showDeleteModal (dash ui)) = true).
    { rewrite Hclosed. destruct (selectedIds (dash ui));
        [contradiction | reflexivity]. }
    unfold onKeyDown, KeyboardShortcuts.handleKeyDown.
    rewrite Hin.
    destruct Hk as [Hk | Hk]; rewrite Hk; simpl;
      rewrite ?andb_false_r; simpl; unfold shortcutDelete;
      rewrite Hguard; reflexivity.
Qed.

(* ================================================================== *)
(** ** Marking events and choosing calendars *)

Lemma delete_In (s : JsSet.t) (x y : str) :
  In y (JsSet.delete s x) <-> In y s /\ y <> x.
Proof.
  forget_runtime.
  unfold JsSet.delete. rewrite filter_In, negb_true_iff, str_eqb_neq.
  split; intros [H1 H2]; split; auto.
Qed.

Lemma delete_NoDup (s : JsSet.t) (x : str) :
  NoDup s -> NoDup (JsSet.delete s x).
Proof. apply NoDup_filter. Qed.

Lemma delete_absent (s : JsSet.t) (x : str) :
  ~ In x s -> JsSet.delete s x = s.
Proof.
  forget_runtime.
  unfold JsSet.delete. induction s as [|a s IH]; simpl; intros H;
    [reflexivity|].
  destruct (str_eqb x a) eqn:E.
  - apply str_eqb_eq in E. subst. exfalso. apply H. left. reflexivity.
  - simpl. rewrite IH; [reflexivity|]. intros Hx. apply H. right. exact Hx.
Qed.

Lemma delete_length (s : JsSet.t) (x : str) :
  NoDup s -> In x s ->
  S (List.length (JsSet.delete s x)) = List.length s.
Proof.
  forget_runtime.
  unfold JsSet.delete. induction s as [|a s IH]; simpl; intros Hnd Hx;
    [destruct Hx|].
  inversion Hnd as [|? ? Hnot Hnd']; subst.
  destruct (str_eqb x a) eqn:E; simpl.
  - apply str_eqb_eq in E. subst a.
    fold (JsSet.delete s x). rewrite (delete_absent _ _ Hnot). reflexivity.
  - apply str_eqb_neq in E. destruct Hx as [Hx | Hx]; [congruence|].
    rewrite (IH Hnd' Hx). reflexivity.
Qed.

Lemma delete_appended (s : JsSet.t) (x : str) :
  ~ In x s -> JsSet.delete (s ++ [x]) x = s.
Proof.
  forget_runtime.
  intros H. unfold JsSet.delete. rewrite filter_app. simpl.
  rewrite str_eqb_refl. simpl. rewrite app_nil_r.
  apply (delete_absent _ _ H).
Qed.

Lemma has_false (s : JsSet.t) (x : str) :
  JsSet.has s x = false <-> ~ In x s.
Proof.
  forget_runtime.
  rewrite <- has_In. destruct (JsSet.has s x); split; congruence.
Qed.

Lemma fold_add_fresh (l : list str) (acc : JsSet.t) :
  NoDup (acc ++ l) -> fold_left JsSet.add l acc = acc ++ l.
Proof.
  forget_runtime.
  revert acc. induction l as [|x l IH]; intros acc H; simpl.
  - rewrite app_nil_r. reflexivity.
  - assert (Hx : JsSet.has acc x = false).
    { apply has_false. intros Hin. apply NoDup_remove_2 in H.
      apply H, in_or_app. left. exact Hin. }
    unfold JsSet.add at 2. rewrite Hx.
    rewrite IH; rewrite <- app_assoc; simpl; [reflexivity | exact H].
Qed.

Lemma of_list_distinct (l : list str) : NoDup l -> JsSet.of_list l = l.
Proof. intros H. apply (fold_add_fresh l [] H). Qed.

(** X7: clicking an event flips its mark and no other; the marks stay free
    of duplicates and their number moves by one. *)
Theorem toggle_event_flips_one_mark (st : DashState) (x : str) :
  let after := selectedIds (handleToggleEvent st x) in
  (In x after <-> ~ In x (selectedIds st))
  /\ (forall y, y <> x -> (In y after <-> In y (selectedIds st)))
  /\ (NoDup (selectedIds st) ->
      NoDup after
      /\ JsSet.size after
         = if JsSet.has (selectedIds st) x
           then Nat.pred (JsSet.size (selectedIds st))
           else S (JsSet.size (selectedIds st)))
  /\ events (handleToggleEvent st x) = events st
  /\ searchQuery (handleToggleEvent st x) = searchQuery st.
Proof.
  forget_runtime.
  cbv zeta. unfold handleToggleEvent.
  destruct (JsSet.has (selectedIds st) x) eqn:E; simpl.
  - apply has_In in E. split; [|split; [|split; [|split; reflexivity]]].
    + rewrite delete_In. split; [intros [_ H]; congruence | contradiction].
    + intros y Hy. rewrite delete_In. tauto.
    + intros Hnd. split; [apply delete_NoDup, Hnd|].
      unfold JsSet.size. rewrite <- (delete_length _ x Hnd E). reflexivity.
  - apply has_false in E. split; [|split; [|split; [|split; reflexivity]]].
    + rewrite add_In. tauto.
    + intros y Hy. rewrite add_In. tauto.
    + intros Hnd. split; [apply add_NoDup, Hnd|].
      unfold JsSet.size, JsSet.add.
      rewrite (proj2 (has_false _ _) E), length_app. simpl. lia.
Qed.

(** X8: clicking an event twice restores the marks: the same members, and
    the very same selection when the event was not marked.  When it was
    marked, its id moves to the end of the selection. *)
Theorem toggle_event_twice_restores (st : DashState) (x : str) :
  let twice := selectedIds (handleToggleEvent (handleToggleEvent st x) x) in
  sameMembers twice (selectedIds st)
  /\ (~ In x (selectedIds st) -> twice = selectedIds st)
  /\ (In x (selectedIds st) ->
      twice = JsSet.delete (selectedIds st) x ++ [x])
  /\ (NoDup (selectedIds st) ->
      JsSet.size twice = JsSet.size (selectedIds st)).
Proof.
  forget_runtime.
  cbv zeta. unfold handleToggleEvent.
  destruct (JsSet.has (selectedIds st) x) eqn:E; simpl.
  - pose proof (proj1 (has_In _ _) E) as Hin.
    assert (Hgone : JsSet.has (JsSet.delete (selectedIds st) x) x = false).
    { apply has_false. rewrite delete_In. intros [_ H]. congruence. }
    rewrite Hgone. unfold JsSet.add. rewrite Hgone.
    split; [|split; [contradiction | split; [reflexivity|]]].
    + intros y. rewrite in_app_iff, delete_In. simpl.
      destruct (list_eq_dec N.eq_dec y x) as [-> | Hne].
      * split; [intros _; exact Hin | intros _; right; left; reflexivity].
      * split; [|intros H; left; split; assumption].
        intros [[H _] | [H | []]]; [exact H | congruence].
    + intros Hnd. unfold JsSet.size. rewrite length_app. simpl.
      rewrite <- (delete_length _ x Hnd Hin). lia.
  - pose proof (proj1 (has_false _ _) E) as Hout.
    assert (Hadded : JsSet.has (JsSet.add (selectedIds st) x) x = true).
    { apply has_In, add_In. right. reflexivity. }
    rewrite Hadded. unfold JsSet.add. rewrite E.
    rewrite (delete_appended _ _ Hout).
    split; [intros y; reflexivity|]. split; [reflexivity|].
    split; [contradiction | reflexivity].
Qed.

Lemma loadEvents_frame (snap cur : DashState) (srv : Server) :
  let after := fst (fst (loadEvents snap cur srv)) in
  calendars after = calendars cur
  /\ selectedCalendarIds after = selectedCalendarIds cur
  /\ selectedIds after = selectedIds cur
  /\ showDeleteModal after = showDeleteModal cur
  /\ deleting after = deleting cur
  /\ timeMin after = timeMin cur
  /\ timeMax after = timeMax cur
  /\ searchQuery after = searchQuery cur
  /\ loading after = false.
Proof.
  forget_runtime.
  cbv zeta. unfold loadEvents.
  destruct (Nat.eqb _ 0); [repeat split|].
  destruct (fetchLoop _ _ _ _) as [[srv' tr] [allEvents | e]];
    [repeat split|].
  destruct (isTokenExpired e); repeat split.
Qed.

(** X9: clicking a calendar chip flips that calendar and no other, and the
    marks are gone once the aggregate has been rebuilt.  Unselecting the
    only selected calendar empties the aggregate without any request. *)
Theorem calendar_toggle_clears_marks
    (st : DashState) (srv : Server) (cid : str) :
  let after := fst (fst (toggleCalendar st srv cid)) in
  selectedIds after = []
  /\ (In cid (selectedCalendarIds after)
      <-> ~ In cid (selectedCalendarIds st))
  /\ (forall c, c <> cid ->
        (In c (selectedCalendarIds after)
         <-> In c (selectedCalendarIds st)))
  /\ (selectedCalendarIds st = [cid] -> calendars st <> [] ->
      toggleCalendar st srv cid
      = (setEvents [] (handleCalendarToggle st cid), srv, [])
        /\ events after = []).
Proof.
  forget_runtime.
  cbv zeta.
  assert (Hframe :
    selectedIds (fst (fst (toggleCalendar st srv cid))) = []
    /\ selectedCalendarIds (fst (fst (toggleCalendar st srv cid)))
       = selectedCalendarIds (handleCalendarToggle st cid)).
  { unfold toggleCalendar, eventsEffect.
    destruct (_ && _).
    - destruct (loadEvents_frame (handleCalendarToggle st cid)
                  (handleCalendarToggle st cid) srv)
        as (_ & Hc & Hs & _).
      cbv zeta in Hc, Hs. rewrite Hc, Hs. split; reflexivity.
    - destruct (0 <? _); split; reflexivity. }
  destruct Hframe as [Hsel Hcal]. rewrite Hcal.
  split; [exact Hsel|].
  unfold handleCalendarToggle at 1 2. simpl.
  destruct (JsSet.has (selectedCalendarIds st) cid) eqn:E.
  - apply has_In in E. split; [|split].
    + rewrite delete_In. split; [intros [_ H]; congruence | contradiction].
    + intros c Hc. rewrite delete_In. tauto.
    + intros Hone Hcals. unfold toggleCalendar, eventsEffect,
        handleCalendarToggle. rewrite Hone. simpl.
      rewrite str_eqb_refl. simpl.
      destruct (calendars st); [contradiction|]. simpl. split; reflexivity.
  - apply has_false in E. split; [|split].
    + rewrite add_In. tauto.
    + intros c Hc. rewrite add_In. tauto.
    + intros Hone. exfalso. apply E. rewrite Hone. left. reflexivity.
Qed.

(** X10: Select-all twice: with nothing marked and distinct visible ids, the
    first call marks exactly the visible events, in their order, and the
    second call clears the marks again. *)
Theorem select_all_twice_toggles (st : DashState) :
  selectedIds st = [] ->
  NoDup (map id (visibleEvents st)) ->
  selectedIds (handleSelectAll st) = map id (visibleEvents st)
  /\ selectedIds (handleSelectAll (handleSelectAll st)) = [].
Proof.
  forget_runtime.
  intros Hempty Hnd.
  assert (Hfirst :
    selectedIds (handleSelectAll st) = map id (visibleEvents st)).
  { unfold handleSelectAll. rewrite Hempty. simpl.
    destruct (visibleEvents st) as [|e evs] eqn:Ev; [reflexivity|].
    simpl Nat.eqb. cbv iota. unfold setSelectedIds. simpl selectedIds.
    apply of_list_distinct. exact Hnd. }
  split; [exact Hfirst|].
  assert (Hvis : visibleEvents (handleSelectAll st) = visibleEvents st).
  { unfold handleSelectAll.
    destruct (Nat.eqb _ _); reflexivity. }
  unfold handleSelectAll at 1. rewrite Hvis, Hfirst.
  unfold JsSet.size. rewrite length_map, Nat.eqb_refl. reflexivity.
Qed.

(** X24: When every marked event is visible and the visible ids are
    distinct, select-all follows the rule of a toggle: it clears the marks
    if they are exactly the visible events, and otherwise marks exactly
    the visible events. *)
Theorem select_all_within_view (st : DashState) :
  NoDup (selectedIds st) ->
  NoDup (map id (visibleEvents st)) ->
  incl (selectedIds st) (map id (visibleEvents st)) ->
  spec_selectAll (selectedIds st) (map id (visibleEvents st))
    (selectedIds (handleSelectAll st)).
Proof.
  forget_runtime.
  intros Hs Hv Hincl.
  pose proof (same_size_same_members _ _ Hs Hv Hincl) as Heq.
  rewrite length_map in Heq. unfold handleSelectAll, JsSet.size.
  split.
  - intros Hsame. apply Heq, Nat.eqb_eq in Hsame. rewrite Hsame.
    reflexivity.
  - intros Hnot.
    destruct (Nat.eqb (List.length (selectedIds st))
                (List.length (visibleEvents st))) eqn:E.
    + exfalso. apply Hnot, Heq, Nat.eqb_eq, E.
    + intros x. apply of_list_In.
Qed.

(** X11: Refresh drops every mark, whatever the fetches do, and leaves the
    calendar choice, the time window and the query as they were; with no
    calendar selected it sends no request and empties the aggregate. *)
Theorem refresh_clears_marks (st : DashState) (srv : Server) :
  let after := fst (fst (handleRefresh st srv)) in
  selectedIds after = []
  /\ selectedCalendarIds after = selectedCalendarIds st
  /\ timeMin after = timeMin st
  /\ timeMax after = timeMax st
  /\ searchQuery after = searchQuery st
  /\ loading after = false
  /\ (selectedCalendarIds st = [] ->
      events after = [] /\ snd (handleRefresh st srv) = []
      /\ snd (fst (handleRefresh st srv)) = srv).
Proof.
  forget_runtime.
  cbv zeta. unfold handleRefresh.
  destruct (loadEvents_frame st (setSelectedIds [] st) srv)
    as (_ & Hc & Hs & _ & _ & Hmin & Hmax & Hq & Hl).
  cbv zeta in *. rewrite Hc, Hs, Hmin, Hmax, Hq, Hl.
  repeat split.
  all: unfold loadEvents; rewrite H; reflexivity.
Qed.

(* ================================================================== *)
(** ** The loaders: requests, tags and failures *)

Lemma fetchLoop_all_fetched (snap : DashState) (srv srv' : Server)
    (ids : list str) (results : list (list CalendarEvent)) :
  AllFetched snap srv ids results srv' ->
  forall acc,
    fetchLoop snap srv ids acc
    = (srv', map (fetchCall snap) ids, Returned (acc ++ List.concat results)).
Proof.
  induction 1 as [srv | srv cid rest fetchedEvents srv1 results srv2
    Hcall Hrest IH]; intros acc; simpl.
  - rewrite app_nil_r. reflexivity.
  - rewrite Hcall, IH, <- app_assoc. reflexivity.
Qed.

Lemma fetchLoop_thrown (snap : DashState) (srv srv1 srv2 : Server)
    (pre post : list str) (cid : str)
    (results : list (list CalendarEvent)) (e : ApiError) :
  AllFetched snap srv pre results srv1 ->
  api_getEvents srv1 cid 100 (timeMin snap) (or_else (timeMax snap) None)
  = (srv2, Thrown e) ->
  forall acc,
    fetchLoop snap srv (pre ++ cid :: post) acc
    = (srv2, map (fetchCall snap) (pre ++ [cid]), Thrown e).
Proof.
  induction 1 as [srv | srv c rest fetchedEvents srv' results srv''
    Hcall Hrest IH]; intros Hthrow acc; simpl.
  - rewrite Hthrow. reflexivity.
  - rewrite Hcall, (IH Hthrow). reflexivity.
Qed.

Lemma fetchLoop_requests (snap : DashState) (srv : Server) (ids : list str)
    (acc : list CalendarEvent) :
  exists n, snd (fst (fetchLoop snap srv ids acc))
            = map (fetchCall snap) (firstn n ids).
Proof.
  revert srv acc. induction ids as [|cid rest IH]; intros srv acc; simpl.
  - exists 0%nat. reflexivity.
  - destruct (api_getEvents srv cid 100 (timeMin snap) _)
      as [srv' [fetchedEvents | e]].
    + destruct (IH srv' (acc ++ map (tagEvent cid
        (find (fun c => str_eqb (cal_id c) cid) (calendars snap)))
        fetchedEvents)) as [n Hn].
      destruct (fetchLoop snap srv' rest _) as [[srv'' tr] r].
      simpl in *. exists (S n). simpl. rewrite Hn. reflexivity.
    + exists 1%nat. reflexivity.
Qed.

Lemma AllFetched_tagged (snap : DashState) (srv srv' : Server)
    (ids : list str) (results : list (list CalendarEvent)) :
  AllFetched snap srv ids results srv' ->
  forall e, In e (List.concat results) ->
    In (calendarId e) ids
    /\ calendarColor e
       = match find (fun c => str_eqb (cal_id c) (calendarId e))
                 (calendars snap) with
         | Some c => backgroundColor c
         | None => None
         end.
Proof.
  induction 1 as [srv | srv cid rest fetchedEvents srv1 results srv2
    Hcall Hrest IH]; intros e He; simpl in He; [destruct He|].
  apply in_app_or in He. destruct He as [He | He].
  - unfold taggedFrom in He. apply in_map_iff in He.
    destruct He as [raw [<- _]]. simpl. split; [left; reflexivity|].
    reflexivity.
  - destruct (IH e He) as [Hin Hcolor]. split; [right; exact Hin|].
    exact Hcolor.
Qed.

(** X12: when every fetch returns, [loadEvents] has sent one request per
    selected calendar, in the order of the selection, each for at most
    100 events of the time window.  The aggregate holds the fetched
    events and no other, each tagged with the calendar it was fetched
    from and with that calendar's colour; the toast is left alone. *)
Theorem load_events_tags_what_it_fetches
    (snap cur : DashState) (srv srv' : Server)
    (results : list (list CalendarEvent)) :
  selectedCalendarIds snap <> [] ->
  AllFetched snap srv (selectedCalendarIds snap) results srv' ->
  let after := fst (fst (loadEvents snap cur srv)) in
  snd (loadEvents snap cur srv)
  = map (fun cid =>
           CallGetEvents cid 100 (timeMin snap) (or_else (timeMax snap) None))
      (selectedCalendarIds snap)
  /\ snd (fst (loadEvents snap cur srv)) = srv'
  /\ Permutation (List.concat results) (events after)
  /\ (forall e, In e (events after) ->
        In (calendarId e) (selectedCalendarIds snap)
        /\ calendarColor e
           = match find (fun c => str_eqb (cal_id c) (calendarId e))
                     (calendars snap) with
             | Some c => backgroundColor c
             | None => None
             end)
  /\ toast after = toast cur
  /\ loading after = false.
Proof.
  intros Hne Hall. cbv zeta.
  pose proof (fetchLoop_all_fetched _ _ _ _ _ Hall []) as Hf.
  simpl in Hf. rewrite (loadEvents_events _ cur _ _ _ _ Hne Hf). simpl.
  split; [reflexivity|]. split; [reflexivity|].
  split; [apply sort_perm|]. split; [|split; reflexivity].
  intros e He. apply (AllFetched_tagged _ _ _ _ _ Hall).
  apply (Permutation_in _ (Permutation_sym (sort_perm compareEvents _))).
  exact He.
Qed.

(** X13: when a fetch is rejected, the calendars after it are not requested
    and the aggregate on display is left as it was.  An expired token
    shows the session toast and schedules the logout; any other error
    shows the load-failed toast. *)
Theorem load_events_failure_keeps_aggregate
    (snap cur : DashState) (srv srv1 srv2 : Server) (pre post : list str)
    (cid : str) (results : list (list CalendarEvent)) (e : ApiError) :
  selectedCalendarIds snap = pre ++ cid :: post ->
  AllFetched snap srv pre results srv1 ->
  api_getEvents srv1 cid 100 (timeMin snap) (or_else (timeMax snap) None)
  = (srv2, Thrown e) ->
  let after := fst (fst (loadEvents snap cur srv)) in
  events after = events cur
  /\ loading after = false
  /\ snd (loadEvents snap cur srv)
     = map (fetchCall snap) (pre ++ [cid])
       ++ (if isTokenExpired e then [ScheduleLogout] else [])
  /\ toast after
     = (if isTokenExpired e then sessionExpiredToast
        else Some {| message := MsgLoadFailed; type := error |})
  /\ snd (fst (loadEvents snap cur srv)) = srv2.
Proof.
  intros Hsel Hpre Hthrow. cbv zeta. unfold loadEvents, JsSet.size.
  rewrite Hsel.
  rewrite (fetchLoop_thrown _ _ _ _ _ post _ _ _ Hpre Hthrow).
  destruct pre; simpl Nat.eqb; cbv iota;
    destruct (isTokenExpired e); simpl; rewrite ?app_nil_r; repeat split.
Qed.

(** X14: the effect that rebuilds the aggregate: before the calendars are
    loaded it does nothing; with no calendar selected it sends nothing;
    otherwise its requests go to a prefix of the selected calendars, in
    order, followed at most by the scheduled logout.  It never touches
    the marks, the calendar choice, the time window or the query. *)
Theorem events_effect_requests (st : DashState) (srv : Server) :
  let after := fst (fst (eventsEffect st srv)) in
  (calendars st = [] -> eventsEffect st srv = (st, srv, []))
  /\ (selectedCalendarIds st = [] ->
      snd (eventsEffect st srv) = []
      /\ snd (fst (eventsEffect st srv)) = srv
      /\ (calendars st <> [] -> events after = []))
  /\ (exists n,
        snd (eventsEffect st srv)
        = map (fetchCall st) (firstn n (selectedCalendarIds st))
        \/ snd (eventsEffect st srv)
           = map (fetchCall st) (firstn n (selectedCalendarIds st))
             ++ [ScheduleLogout])
  /\ selectedIds after = selectedIds st
  /\ selectedCalendarIds after = selectedCalendarIds st
  /\ timeMin after = timeMin st
  /\ timeMax after = timeMax st
  /\ searchQuery after = searchQuery st.
Proof.
  cbv zeta. unfold eventsEffect, JsSet.size.
  destruct (calendars st) as [|c cals] eqn:Ec.
  { rewrite andb_false_r. simpl.
    split; [reflexivity|]. split; [repeat split; intros; congruence|].
    split; [exists 0%nat; left; reflexivity | repeat split]. }
  destruct (selectedCalendarIds st) as [|cid ids] eqn:Es.
  { simpl. split; [discriminate|].
    split; [repeat split; intros; reflexivity|].
    split; [exists 0%nat; left; reflexivity|].
    repeat split; simpl; congruence. }
  change ((0 <? Z.of_nat (List.length (cid :: ids)))
          && (0 <? Z.of_nat (List.length (c :: cals)))) with true.
  cbv iota.
  destruct (loadEvents_frame st st srv)
    as (_ & Hc & Hs & _ & _ & Hmin & Hmax & Hq & _).
  cbv zeta in *. rewrite Hc, Hs, Hmin, Hmax, Hq, Es.
  split; [discriminate|]. split; [discriminate|].
  split; [|repeat split].
  unfold loadEvents, JsSet.size. rewrite Es. simpl Nat.eqb. cbv iota.
  destruct (fetchLoop_requests st srv (cid :: ids) []) as [n Hn].
  destruct (fetchLoop st srv (cid :: ids) []) as [[srv' tr] [all | e]];
    simpl in Hn; subst tr.
  - exists n. left. reflexivity.
  - exists n. destruct (isTokenExpired e); [right | left]; reflexivity.
Qed.

(* ================================================================== *)
(** ** The chips: counts and the first selection *)

Lemma get_set_bump (m : JsMap.t Z) (k cid : str) :
  orZero (JsMap.get (JsMap.set m k (orZero (JsMap.get m k) + 1)) cid)
  = orZero (JsMap.get m cid) + (if str_eqb k cid then 1 else 0).
Proof.
  forget_runtime.
  destruct (str_eqb k cid) eqn:E.
  - apply str_eqb_eq in E. subst. rewrite get_set_same. reflexivity.
  - apply str_eqb_neq in E. rewrite (get_set_other _ _ _ _ E). lia.
Qed.

Lemma countEvents_get (evs : list CalendarEvent) (counts : JsMap.t Z)
    (cid : str) :
  orZero (JsMap.get (countEvents evs counts) cid)
  = orZero (JsMap.get counts cid)
    + Z.of_nat
        (List.length
           (List.filter (fun e => str_eqb (calendarId e) cid) evs)).
Proof.
  forget_runtime.
  revert counts. induction evs as [|event rest IH]; intros counts; simpl.
  - lia.
  - rewrite IH, get_set_bump.
    destruct (str_eqb (calendarId event) cid); simpl List.length; lia.
Qed.

Lemma set_bump_sum (m : JsMap.t Z) (k : str) :
  sumZ (map snd (JsMap.set m k (orZero (JsMap.get m k) + 1)))
  = sumZ (map snd m) + 1.
Proof.
  forget_runtime.
  induction m as [|[k' v] m IH]; simpl; [lia|].
  destruct (str_eqb k' k); simpl; [lia|]. rewrite IH. lia.
Qed.

Lemma countEvents_sum (evs : list CalendarEvent) (counts : JsMap.t Z) :
  sumZ (map snd (countEvents evs counts))
  = sumZ (map snd counts) + Z.of_nat (List.length evs).
Proof.
  forget_runtime.
  revert counts. induction evs as [|event rest IH]; intros counts.
  - simpl. lia.
  - simpl countEvents. rewrite IH, set_bump_sum. simpl List.length. lia.
Qed.

Lemma countEvents_keys (evs : list CalendarEvent) (counts : JsMap.t Z) :
  NoDup (map fst counts) -> NoDup (map fst (countEvents evs counts)).
Proof.
  forget_runtime.
  revert counts. induction evs as [|event rest IH]; intros counts H; simpl;
    [exact H|].
  apply IH, set_keys_NoDup, H.
Qed.

Lemma countEvents_positive (evs : list CalendarEvent) (counts : JsMap.t Z) :
  Forall (fun b => 0 < snd b) counts ->
  Forall (fun b => 0 < snd b) (countEvents evs counts).
Proof.
  forget_runtime.
  revert counts. induction evs as [|event rest IH]; intros counts H; simpl;
    [exact H|].
  apply IH.
  assert (Hget : 0 <= orZero (JsMap.get counts (calendarId event))).
  { clear IH. induction H as [|[k v] m Hb Hm IHm]; simpl; [lia|].
    destruct (str_eqb k (calendarId event)); simpl in *; [lia | exact IHm]. }
  revert Hget. generalize (orZero (JsMap.get counts (calendarId event))).
  intros n Hn. clear IH.
  induction H as [|[k v] m Hb Hm IHm]; simpl.
  - repeat constructor. simpl. lia.
  - destruct (str_eqb k (calendarId event)); constructor; simpl in *;
      auto; lia.
Qed.

(** X15: the count shown on a chip is the number of events of the aggregate
    that belong to that calendar.  The map has one entry per calendar
    with events, each count is positive, and the counts add up to the
    size of the aggregate. *)
Theorem event_count_counts_events (evs : list CalendarEvent) (cid : str) :
  eventCount evs cid
  = Z.of_nat
      (List.length (List.filter (fun e => str_eqb (calendarId e) cid) evs))
  /\ NoDup (map fst (eventCountByCalendar evs))
  /\ Forall (fun b => 0 < snd b) (eventCountByCalendar evs)
  /\ sumZ (map snd (eventCountByCalendar evs)) = Z.of_nat (List.length evs)
  /\ (eventCount evs cid = 0 <-> forall e, In e evs -> calendarId e <> cid).
Proof.
  forget_runtime.
  assert (Hcount : eventCount evs cid
    = Z.of_nat
        (List.length
           (List.filter (fun e => str_eqb (calendarId e) cid) evs))).
  { unfold eventCount, eventCountByCalendar. rewrite countEvents_get.
    simpl. lia. }
  split; [exact Hcount|].
  split; [apply countEvents_keys; constructor|].
  split; [apply countEvents_positive; constructor|].
  split; [unfold eventCountByCalendar; rewrite countEvents_sum; simpl; lia|].
  rewrite Hcount. split.
  - intros Hz e He Heq.
    assert (Hin : In e (List.filter
                          (fun e => str_eqb (calendarId e) cid) evs)).
    { apply filter_In. split; [exact He | apply str_eqb_eq, Heq]. }
    destruct (List.filter _ evs); [destruct Hin | simpl in Hz; lia].
  - intros Hnone.
    destruct (List.filter (fun e => str_eqb (calendarId e) cid) evs)
      as [|e l] eqn:Ef; [reflexivity|].
    assert (Hin : In e (List.filter
                          (fun e => str_eqb (calendarId e) cid) evs))
      by (rewrite Ef; left; reflexivity).
    apply filter_In in Hin. destruct Hin as [He Heq].
    apply str_eqb_eq in Heq. exfalso. exact (Hnone e He Heq).
Qed.

Lemma find_none_forall {A : Type} (p : A -> bool) (l : list A) :
  (forall x, In x l -> p x = false) -> find p l = None.
Proof.
  forget_runtime.
  induction l as [|a l IH]; simpl; intros H; [reflexivity|].
  rewrite (H a (or_introl eq_refl)). apply IH. intros x Hx. apply H.
  right. exact Hx.
Qed.

(** X16: after the calendars are loaded, the one calendar selected is the
    first chip of the sorted list; it is a primary calendar whenever the
    account has one.  With no calendar at all the selection is left as it
    was. *)
Theorem load_calendars_selects_first_chip
    (cur : DashState) (srv srv' : Server) (fetched : list Calendar) :
  JsArray.consistent localeCompare ->
  api_getCalendars srv = (srv', Returned fetched) ->
  let after := fst (fst (loadCalendars cur srv)) in
  (fetched = [] ->
   selectedCalendarIds after = selectedCalendarIds cur
   /\ calendars after = [])
  /\ (forall c rest,
        calendars after = c :: rest ->
        selectedCalendarIds after = [cal_id c]
        /\ ((exists p, In p fetched /\ primary p = true) ->
            primary c = true))
  /\ selectedIds after = selectedIds cur
  /\ events after = events cur.
Proof.
  intros Hcons Hget. cbv zeta.
  pose proof (compareCalendars_consistent Hcons) as Hcc.
  pose proof (sort_sorted compareCalendars Hcc fetched) as Hsorted.
  pose proof (sort_perm compareCalendars fetched) as Hperm.
  unfold loadCalendars. rewrite Hget.
  destruct (JsArray.sort compareCalendars fetched) as [|c rest] eqn:Es.
  - simpl. split; [intros _; split; reflexivity|].
    split; [intros c rest E; discriminate E | split; reflexivity].
  - split.
    { intros E. subst fetched. apply Permutation_nil in Hperm.
      discriminate Hperm. }
    assert (Hrest : primary c = false ->
                    forall y, In y rest -> primary y = false).
    { intros Hc y Hy. inversion Hsorted as [|? ? _ Hall]; subst.
      rewrite Forall_forall in Hall. specialize (Hall y Hy).
      unfold compareCalendars in Hall. rewrite Hc in Hall.
      destruct (primary y); [simpl in Hall; lia | reflexivity]. }
    simpl find. destruct (primary c) eqn:Hc.
    + simpl. split; [|split; reflexivity].
      intros c' rest' E. inversion E; subst. split; [reflexivity | auto].
    + rewrite (find_none_forall primary rest (Hrest eq_refl)). simpl.
      split; [|split; reflexivity].
      intros c' rest' E. inversion E; subst c' rest'.
      split; [reflexivity|].
      intros [p [Hp Hprim]].
      apply (Permutation_in _ Hperm) in Hp. destruct Hp as [<- | Hp].
      * congruence.
      * rewrite (Hrest eq_refl p Hp) in Hprim. discriminate.
Qed.

(** X17: when the calendar list cannot be fetched, the calendars, the choice
    of calendars, the aggregate and the marks stay as they were.  Only an
    expired token is shown to the user (and schedules the logout); any
    other failure changes nothing on the screen. *)
Theorem load_calendars_failure_is_silent
    (cur : DashState) (srv srv' : Server) (e : ApiError) :
  api_getCalendars srv = (srv', Thrown e) ->
  let after := fst (fst (loadCalendars cur srv)) in
  calendars after = calendars cur
  /\ selectedCalendarIds after = selectedCalendarIds cur
  /\ events after = events cur
  /\ selectedIds after = selectedIds cur
  /\ (isTokenExpired e = true ->
      toast after = sessionExpiredToast
      /\ snd (loadCalendars cur srv) = [CallGetCalendars; ScheduleLogout])
  /\ (isTokenExpired e = false ->
      after = cur /\ snd (loadCalendars cur srv) = [CallGetCalendars]).
Proof.
  intros Hget. cbv zeta. unfold loadCalendars. rewrite Hget.
  destruct (isTokenExpired e); simpl; repeat split; intros; congruence.
Qed.

(* ================================================================== *)
(** ** The delete handler: every outcome *)

Lemma push_concat (m : JsMap.t (list str)) (c y : str) :
  Permutation
    (List.concat
       (map snd
          (JsMap.set m c
             (match JsMap.get m c with Some l => l | None => [] end
              ++ [y]))))
    (List.concat (map snd m) ++ [y]).
Proof.
  forget_runtime.
  induction m as [|[k v] m IH]; simpl; [reflexivity|].
  destruct (str_eqb k c); simpl.
  - rewrite <- !app_assoc. apply Permutation_app_head.
    apply Permutation_app_comm.
  - rewrite <- app_assoc. apply Permutation_app_head. exact IH.
Qed.

Lemma group_concat (evs : list CalendarEvent) (ids : list str)
    (m : JsMap.t (list str)) :
  Permutation
    (List.concat (map snd (groupByCalendar evs ids m)))
    (List.concat (map snd m) ++ List.filter (resolvable evs) ids).
Proof.
  forget_runtime.
  revert m. induction ids as [|y ids IH]; intros m; simpl.
  - rewrite app_nil_r. reflexivity.
  - unfold resolvable at 1. fold (findEvent evs y).
    destruct (findEvent evs y) as [event|]; [|apply IH].
    rewrite IH, push_concat, <- app_assoc. reflexivity.
Qed.

(** X18: the delete batches hold every marked id that the aggregate can
    resolve exactly as often as it is marked: none is left out, none is
    sent to two calendars or twice.  With duplicate-free marks, no id
    occurs twice in the requests. *)
Theorem delete_batches_partition_the_marks
    (evs : list CalendarEvent) (selection : list str) :
  let batches := groupByCalendar evs selection [] in
  Permutation (List.concat (map snd batches))
    (List.filter (resolvable evs) selection)
  /\ List.length (List.concat (map snd batches))
     = List.length (List.filter (resolvable evs) selection)
  /\ (NoDup selection -> NoDup (List.concat (map snd batches))).
Proof.
  forget_runtime.
  cbv zeta. pose proof (group_concat evs selection []) as H. simpl in H.
  split; [exact H|]. split; [apply Permutation_length, H|].
  intros Hnd. apply (Permutation_NoDup (Permutation_sym H)).
  apply NoDup_filter, Hnd.
Qed.

Lemma filter_resolvable_none (evs : list CalendarEvent) (ids : list str) :
  (forall x, In x ids -> findEvent evs x = None) ->
  List.filter (resolvable evs) ids = [].
Proof.
  forget_runtime.
  induction ids as [|y ids IH]; simpl; intros H; [reflexivity|].
  unfold resolvable at 1. rewrite (H y (or_introl eq_refl)).
  apply IH. intros x Hx. apply H. right. exact Hx.
Qed.

(** X19: marks that the aggregate no longer resolves (or no marks at all):
    confirming the deletion sends no delete request; the handler reports
    0 deleted events as a success, clears the marks, closes the modal and
    refreshes. *)
Theorem delete_of_stale_marks_sends_nothing
    (st : DashState) (srv : Server) :
  (forall x, In x (selectedIds st) -> findEvent (events st) x = None) ->
  let reported :=
    setShowDeleteModal false
      (setSelectedIds []
         (setToast (Some {| message := MsgDeleted 0; type := success |})
            (setDeleting true st))) in
  let refresh := loadEvents st reported srv in
  handleDelete st srv
  = (setDeleting false (fst (fst refresh)), snd (fst refresh), snd refresh)
  /\ (forall cid eventIds,
        ~ In (CallDeleteEvents cid eventIds) (snd (handleDelete st srv)))
  /\ selectedIds (fst (fst (handleDelete st srv))) = [].
Proof.
  intros Hstale. cbv zeta.
  assert (Hbatches : groupByCalendar (events st) (selectedIds st) [] = []).
  { rewrite <- group_resolvable_only.
    rewrite (filter_resolvable_none _ _ Hstale). reflexivity. }
  assert (Hrun : handleDelete st srv
    = (setDeleting false
         (fst (fst (loadEvents st
            (setShowDeleteModal false
               (setSelectedIds []
                  (setToast
                     (Some {| message := MsgDeleted 0; type := success |})
                     (setDeleting true st)))) srv))),
       snd (fst (loadEvents st
            (setShowDeleteModal false
               (setSelectedIds []
                  (setToast
                     (Some {| message := MsgDeleted 0; type := success |})
                     (setDeleting true st)))) srv)),
       snd (loadEvents st
            (setShowDeleteModal false
               (setSelectedIds []
                  (setToast
                     (Some {| message := MsgDeleted 0; type := success |})
                     (setDeleting true st)))) srv))).
  { unfold handleDelete. rewrite Hbatches. simpl.
    destruct (loadEvents _ _ _) as [[cur3 srv3] tr3]. reflexivity. }
  split; [exact Hrun|]. rewrite Hrun. simpl fst. simpl snd. split.
  - intros cid eventIds Hin. unfold loadEvents in Hin.
    destruct (Nat.eqb _ 0); [destruct Hin|].
    destruct (fetchLoop_requests st srv (selectedCalendarIds st) [])
      as [n Hn].
    destruct (fetchLoop st srv (selectedCalendarIds st) [])
      as [[srv' tr] [all | e]]; simpl in Hn; subst tr.
    + simpl in Hin. apply in_map_iff in Hin.
      destruct Hin as [c [E _]]. discriminate E.
    + destruct (isTokenExpired e); simpl in Hin.
      * apply in_app_or in Hin. destruct Hin as [Hin | [E | []]];
          [|discriminate E].
        apply in_map_iff in Hin. destruct Hin as [c [E _]]. discriminate E.
      * apply in_map_iff in Hin. destruct Hin as [c [E _]]. discriminate E.
  - destruct (loadEvents_frame st
      (setShowDeleteModal false
         (setSelectedIds []
            (setToast (Some {| message := MsgDeleted 0; type := success |})
               (setDeleting true st)))) srv) as (_ & _ & Hs & _).
    cbv zeta in Hs. simpl. rewrite Hs. reflexivity.
Qed.

(** X20: whatever the requests do, the handler ends with the deleting flag
    off and never touches the calendars, the calendar choice, the time
    window or the query.  The confirmation closes, and the marks are
    dropped, only when the delete loop has completed; when a request is
    rejected they stay, with the aggregate, and an error other than an
    expired token shows the delete-failed toast and schedules no
    logout. *)
Theorem handle_delete_ends_unlocked (st : DashState) (srv : Server) :
  let after := fst (fst (handleDelete st srv)) in
  let run :=
    deleteLoop srv (groupByCalendar (events st) (selectedIds st) []) 0 0 in
  deleting after = false
  /\ calendars after = calendars st
  /\ selectedCalendarIds after = selectedCalendarIds st
  /\ timeMin after = timeMin st
  /\ timeMax after = timeMax st
  /\ searchQuery after = searchQuery st
  /\ (forall totals, snd run = Returned totals ->
        showDeleteModal after = false /\ selectedIds after = [])
  /\ (forall e, snd run = Thrown e ->
        showDeleteModal after = showDeleteModal st
        /\ selectedIds after = selectedIds st
        /\ events after = events st
        /\ snd (handleDelete st srv) = snd (fst run)
              ++ (if isTokenExpired e then [ScheduleLogout] else [])
        /\ (isTokenExpired e = false ->
            toast after
            = Some {| message := MsgDeleteFailed; type := error |})).
Proof.
  cbv zeta. unfold handleDelete.
  destruct (deleteLoop srv _ 0 0) as [[srv' tr] [[s f] | e]].
  - pose proof (loadEvents_frame st
      (setShowDeleteModal false
         (setSelectedIds []
            (setToast (deleteToast s f) (setDeleting true st)))) srv')
      as Hframe.
    cbv zeta in Hframe.
    destruct (loadEvents st _ srv') as [[cur3 srv3] tr3].
    simpl in *.
    destruct Hframe as (Hc & Hsc & Hs & Hm & _ & Hmin & Hmax & Hq & _).
    repeat split; try assumption; intros; discriminate.
  - simpl. destruct (isTokenExpired e) eqn:Et; simpl;
      rewrite ?app_nil_r; repeat split; intros; try discriminate;
      try match goal with
          | H : Thrown _ = Thrown _ |- _ => inversion H; subst
          end;
      rewrite ?Et in *; simpl; rewrite ?app_nil_r;
      try reflexivity; try discriminate.
Qed.

(* ================================================================== *)
(** ** The search filter: structure *)

Lemma contains_trans (s t r : str) :
  contains s t -> contains t r -> contains s r.
Proof.
  forget_runtime.
  intros [a [b ->]] [c [d ->]]. exists (a ++ c), (d ++ b).
  rewrite <- !app_assoc. reflexivity.
Qed.

(** X21: the filter tests each event on its own: the result is the aggregate
    with some events left out, nothing added, repeated or reordered;
    filtering a concatenation is concatenating the filtered parts, and
    filtering twice with the same query changes nothing more. *)
Theorem filter_tests_each_event
    (evs evs' : list CalendarEvent) (query : str) :
  (exists keep : CalendarEvent -> bool,
      forall l, filteredEvents l query = List.filter keep l)
  /\ filteredEvents (evs ++ evs') query
     = filteredEvents evs query ++ filteredEvents evs' query
  /\ filteredEvents (filteredEvents evs query) query
     = filteredEvents evs query
  /\ (List.length (filteredEvents evs query) <= List.length evs)%nat
  /\ (forall e, In e (filteredEvents evs query) -> In e evs).
Proof.
  assert (Hkeep : exists keep : CalendarEvent -> bool,
             forall l, filteredEvents l query = List.filter keep l).
  { destruct query as [|c q].
    - exists (fun _ => true). intros l. simpl.
      induction l as [|a l IH]; simpl; [reflexivity | rewrite <- IH].
      reflexivity.
    - exists (eventMatches (normalizeString (c :: q))). intros l.
      reflexivity. }
  split; [exact Hkeep|]. destruct Hkeep as [keep Hkeep].
  rewrite !Hkeep. split; [apply filter_app|].
  split; [|split].
  - induction evs as [|a l IH]; simpl; [reflexivity|].
    destruct (keep a) eqn:E; simpl; rewrite ?E, IH; reflexivity.
  - apply filter_length_le.
  - intros e He. apply filter_In in He. apply He.
Qed.

(** X22: a query whose normal form contains the normal form of another
    shows no event that the other hides. *)
Theorem longer_query_narrows
    (evs : list CalendarEvent) (query longer : str) :
  longer <> [] ->
  contains (normalizeString longer) (normalizeString query) ->
  forall e, In e (filteredEvents evs longer) ->
            In e (filteredEvents evs query).
Proof.
  intros Hne Hsub e He.
  rewrite (filteredEvents_nonempty _ _ Hne) in He.
  apply filter_In in He. destruct He as [He Hm].
  destruct query as [|c q]; [exact He|].
  rewrite filteredEvents_nonempty by discriminate.
  apply filter_In. split; [exact He|].
  apply eventMatches_spec. apply eventMatches_spec in Hm.
  destruct Hm as [[s [E [Hs Hc]]] | [[s [E [Hs Hc]]] | [s [E [Hs Hc]]]]];
    [left | right; left | right; right]; exists s;
    (split; [exact E | split; [exact Hs|]]);
    apply (contains_trans _ _ _ Hc Hsub).
Qed.

(** X23: an event with no title, no description and no location (absent or
    empty) is hidden by every non-empty query. *)
Theorem event_without_text_never_matches
    (evs : list CalendarEvent) (query : str) (e : CalendarEvent) :
  query <> [] ->
  summary e = None \/ summary e = Some [] ->
  description e = None \/ description e = Some [] ->
  location e = None \/ location e = Some [] ->
  ~ In e (filteredEvents evs query).
Proof.
  intros Hne Hs Hd Hl Hin.
  rewrite (filteredEvents_nonempty _ _ Hne) in Hin.
  apply filter_In in Hin. destruct Hin as [_ Hm].
  unfold eventMatches, fieldMatches in Hm.
  destruct Hs as [Es | Es], Hd as [Ed | Ed], Hl as [El | El];
    rewrite Es, Ed, El in Hm; discriminate Hm.
Qed.

End Dashboard.

(* ================================================================== *)
(** ** The component on the concrete runtime *)

(** C1 as stated fails: one id is marked, the time window changes, and
    the id is still marked afterwards. *)
Lemma C1_counterexample :
  selectedIds
    (fst (fst (changeTimeWindow MemoryApi.Server MemoryApi.getEvents
                 codeUnitCompare Sample.hiddenMark Sample.emptyServer
                 (u "2025-07-01") (Some (u "2025-07-15")))))
  <> [].
Proof. vm_compute. discriminate. Qed.

(** C2 at the failing input: the one marked event x is hidden by the
    search, the one visible event a is not marked.  The marks are not the
    visible set, so select-all is to mark exactly a; the code finds one
    mark and one visible event, takes that for "all selected", and
    clears the marks: a is not marked and the mark of x is lost. *)
Lemma C2_select_all_misfires_on_hidden_mark :
  map id
    (visibleEvents Latin1.normalizeNFD Latin1.toLowerCase Latin1.stripHtml
       Sample.hiddenMark) = [u "a"]
  /\ selectedIds Sample.hiddenMark = [u "x"]
  /\ ~ sameMembers (selectedIds Sample.hiddenMark) [u "a"]
  /\ selectedIds
       (handleSelectAll Latin1.normalizeNFD Latin1.toLowerCase
          Latin1.stripHtml Sample.hiddenMark) = []
  /\ ~ spec_selectAll [u "x"] [u "a"]
         (selectedIds
            (handleSelectAll Latin1.normalizeNFD Latin1.toLowerCase
               Latin1.stripHtml Sample.hiddenMark)).
Proof.
  assert (Hdiff : ~ sameMembers [u "x"] [u "a"]).
  { intros H. destruct (proj1 (H (u "x")) (or_introl eq_refl)) as [E | []].
    discriminate E. }
  split; [reflexivity|]. split; [reflexivity|]. split; [exact Hdiff|].
  split; [reflexivity|].
  intros [_ H]. specialize (H Hdiff (u "a")).
  destruct (proj2 H (or_introl eq_refl)).
Qed.

(** C4 on the Latin-1 runtime: "César" is kept for "cesar", "Lunch" is
    not. *)
Lemma C4_witness :
  filteredEvents Latin1.normalizeNFD Latin1.toLowerCase Latin1.stripHtml
    [Sample.lunch; Sample.cesar] (u "cesar") = [Sample.cesar]
  /\ In Sample.cesar
       (filteredEvents Latin1.normalizeNFD Latin1.toLowerCase
          Latin1.stripHtml [Sample.lunch; Sample.cesar] (u "cesar")).
Proof.
  split; [reflexivity|].
  refine (proj2 (proj2 (C4_filter_keeps_matching_events
    Latin1.normalizeNFD Latin1.toLowerCase Latin1.stripHtml
    [Sample.lunch; Sample.cesar] (u "cesar") _))
    eq_refl eq_refl eq_refl eq_refl Sample.cesar _ eq_refl).
  - discriminate.
  - right. left. reflexivity.
Defined.

(** C4 as stated fails: the query is the combining acute accent alone
    (not empty; normalized, it is the empty string) and the event has the
    empty title.  The empty title contains the empty string, so the
    specification keeps the event; the code skips empty fields and drops
    it. *)
Lemma C4_counterexample :
  Sample.acuteAccent <> []
  /\ normalizeString Latin1.normalizeNFD Latin1.toLowerCase
       Sample.acuteAccent = []
  /\ spec_eventMatches Latin1.normalizeNFD Latin1.toLowerCase
       Latin1.stripHtml Sample.acuteAccent Sample.untitled
  /\ filteredEvents Latin1.normalizeNFD Latin1.toLowerCase Latin1.stripHtml
       [Sample.untitled] Sample.acuteAccent = []
  /\ ~ (forall e,
          In e (filteredEvents Latin1.normalizeNFD Latin1.toLowerCase
                  Latin1.stripHtml [Sample.untitled] Sample.acuteAccent)
          <-> In e [Sample.untitled]
              /\ spec_eventMatches Latin1.normalizeNFD Latin1.toLowerCase
                   Latin1.stripHtml Sample.acuteAccent e).
Proof.
  assert (Hm : spec_eventMatches Latin1.normalizeNFD Latin1.toLowerCase
                 Latin1.stripHtml Sample.acuteAccent Sample.untitled).
  { left. exists []. split; [reflexivity|]. exists [], []. reflexivity. }
  split; [discriminate|]. split; [reflexivity|]. split; [exact Hm|].
  split; [reflexivity|].
  intros H. destruct (proj2 (H Sample.untitled)).
  split; [left; reflexivity | exact Hm].
Qed.

(** C5 on the memory API, the start strings written in UTC: the all-day
    event of 2025-06-01, fetched last, stands before the timed event of
    09:00 that day. *)
Lemma C5_witness :
  exists l1 l2 l3,
    events
      (fst (fst (loadEvents MemoryApi.Server MemoryApi.getEvents
                   codeUnitCompare (Sample.twoCalendars [])
                   (Sample.twoCalendars []) Sample.nineServer)))
    = l1 ++ Sample.holiday :: l2 ++ Sample.nine :: l3.
Proof.
  pose proof (C5_aggregate_sorted_by_start_time
    MemoryApi.Server MemoryApi.getEvents codeUnitCompare
    [90%N] 0
    (Sample.twoCalendars []) (Sample.twoCalendars []) Sample.nineServer
    Sample.nineServer
    [CallGetEvents (u "home") 100 (u "2025-06-01") (Some (u "2025-06-15"));
     CallGetEvents (u "work") 100 (u "2025-06-01") (Some (u "2025-06-15"))]
    [Sample.nine; Sample.lunch; Sample.standup; Sample.holiday]
    StartText.zone_utc) as H.
  cbv zeta in H.
  destruct H as (_ & _ & _ & _ & H & _).
  - repeat constructor.
    + exact (StartText.wf_timed [90%N] (StartText.dateOf 2025 6 1)
               (StartText.clockOf 9 0 0) eq_refl eq_refl).
    + exact (StartText.wf_timed [90%N] (StartText.dateOf 2025 6 2)
               (StartText.clockOf 12 0 0) eq_refl eq_refl).
    + exact (StartText.wf_timed [90%N] (StartText.dateOf 2025 6 2)
               (StartText.clockOf 9 0 0) eq_refl eq_refl).
    + exact (StartText.wf_allDay [90%N] (StartText.dateOf 2025 6 1) eq_refl).
  - intros s t _ _. reflexivity.
  - discriminate.
  - reflexivity.
  - apply H; [right; right; right; left | left | | ]; reflexivity.
Defined.

(** C5 as stated fails: a timed event at midnight of 2025-06-01 is
    fetched before the all-day event of that date.  Both start at the
    same instant, so the specification keeps the input order; the code
    compares the strings and puts the all-day event first. *)
Lemma C5_counterexample :
  fetchLoop MemoryApi.Server MemoryApi.getEvents (Sample.twoCalendars [])
    Sample.midnightServer [u "home"; u "work"] []
  = (Sample.midnightServer,
     [CallGetEvents (u "home") 100 (u "2025-06-01") (Some (u "2025-06-15"));
      CallGetEvents (u "work") 100 (u "2025-06-01") (Some (u "2025-06-15"))],
     Returned [Sample.midnight; Sample.holiday])
  /\ spec_startInstant Sample.midnight = spec_startInstant Sample.holiday
  /\ spec_aggregate [Sample.midnight; Sample.holiday]
     = [Sample.midnight; Sample.holiday]
  /\ events
       (fst (fst (loadEvents MemoryApi.Server MemoryApi.getEvents
                    codeUnitCompare (Sample.twoCalendars [])
                    (Sample.twoCalendars []) Sample.midnightServer)))
     = [Sample.holiday; Sample.midnight]
  /\ events
       (fst (fst (loadEvents MemoryApi.Server MemoryApi.getEvents
                    codeUnitCompare (Sample.twoCalendars [])
                    (Sample.twoCalendars []) Sample.midnightServer)))
     <> spec_aggregate [Sample.midnight; Sample.holiday].
Proof.
  split; [reflexivity|]. split; [reflexivity|]. split; [reflexivity|].
  split; [reflexivity|]. vm_compute. discriminate.
Qed.

(** Start strings written with different offsets are outside the
    theorem of C5.  Here the event of 09:00 at -05:00 (14:00 UTC) is
    placed before the event of 10:00 at +02:00 (08:00 UTC). *)
Lemma mixed_offsets_example :
  events
    (fst (fst (loadEvents MemoryApi.Server MemoryApi.getEvents
                 codeUnitCompare (Sample.twoCalendars [])
                 (Sample.twoCalendars []) Sample.offsetsServer)))
  = [Sample.chicago; Sample.cairo]
  /\ spec_startInstant Sample.cairo = 1748764800
  /\ spec_startInstant Sample.chicago = 1748786400.
Proof. repeat split. Qed.

(** C10 on the memory API: the primary calendar comes first, then
    "Family" (the override of "Zoo"), then "Work". *)
Lemma C10_witness :
  Permutation Sample.fetchedCalendars
    (calendars
       (fst (fst (loadCalendars MemoryApi.Server
                    (MemoryApi.getCalendars Sample.fetchedCalendars)
                    codeUnitCompare (Sample.twoCalendars [])
                    Sample.emptyServer))))
  /\ calendars
       (fst (fst (loadCalendars MemoryApi.Server
                    (MemoryApi.getCalendars Sample.fetchedCalendars)
                    codeUnitCompare (Sample.twoCalendars [])
                    Sample.emptyServer)))
     = [Sample.home; Sample.renamed; Sample.work].
Proof.
  split; [|reflexivity].
  exact (proj1 (C10_calendars_primary_first_then_by_name
    MemoryApi.Server (MemoryApi.getCalendars Sample.fetchedCalendars)
    codeUnitCompare (Sample.twoCalendars []) Sample.emptyServer
    Sample.emptyServer Sample.fetchedCalendars
    codeUnitCompare_consistent eq_refl)).
Defined.

(** C3 on the memory API: A, B and C are marked; the call for the first
    calendar is rejected with an expired token.  No call goes out for the
    second calendar, the three marks stay, the logout is scheduled. *)
Lemma C3_witness :
  selectedIds
    (fst (fst (handleDelete MemoryApi.Server MemoryApi.getEvents
                 MemoryApi.deleteEvents codeUnitCompare Sample.threeMarked
                 Sample.rejectsHome)))
  = [u "A"; u "B"; u "C"]
  /\ snd (handleDelete MemoryApi.Server MemoryApi.getEvents
            MemoryApi.deleteEvents codeUnitCompare Sample.threeMarked
            Sample.rejectsHome)
     = [CallDeleteEvents (u "home") [u "A"; u "B"]; ScheduleLogout]
  /\ ~ In (CallDeleteEvents (u "work") [u "C"])
         (snd (handleDelete MemoryApi.Server MemoryApi.getEvents
                 MemoryApi.deleteEvents codeUnitCompare Sample.threeMarked
                 Sample.rejectsHome)).
Proof.
  pose proof (C3_rejected_delete_keeps_selection
    MemoryApi.Server MemoryApi.getEvents MemoryApi.deleteEvents
    codeUnitCompare Sample.threeMarked Sample.rejectsHome
    Sample.rejectsHome Sample.rejectsHome
    [] [(u "work", [u "C"])] (u "home") [u "A"; u "B"] []
    MemoryApi.tokenExpired eq_refl
    (AllReturned_nil _ _ _) eq_refl) as H.
  cbv zeta in H. destruct H as (Hsel & _ & _ & Htrace & Hpost & _ & _).
  split; [exact Hsel|]. split; [exact Htrace|].
  apply (Hpost (u "work", [u "C"])). left. reflexivity.
Defined.

(** C9 on the memory API, the scenario of the specification: A and B in
    one calendar, C in another; B cannot be deleted.  The report counts 2
    deleted and 1 failed, the selection is cleared, and the refreshed
    aggregate holds B alone. *)
Lemma C9_witness :
  selectedIds
    (fst (fst (handleDelete MemoryApi.Server MemoryApi.getEvents
                 MemoryApi.deleteEvents codeUnitCompare Sample.threeMarked
                 Sample.refusesB)))
  = []
  /\ toast
       (fst (fst (handleDelete MemoryApi.Server MemoryApi.getEvents
                    MemoryApi.deleteEvents codeUnitCompare
                    Sample.threeMarked Sample.refusesB)))
     = Some {| message := MsgDeletedWithFailures 2 1; type := error |}
  /\ events
       (fst (fst (handleDelete MemoryApi.Server MemoryApi.getEvents
                    MemoryApi.deleteEvents codeUnitCompare
                    Sample.threeMarked Sample.refusesB)))
     = [Sample.evB].
Proof.
  pose proof (C9_completed_delete_clears_and_refreshes
    MemoryApi.Server MemoryApi.getEvents MemoryApi.deleteEvents
    codeUnitCompare Sample.threeMarked Sample.refusesB
    (Sample.server [(u "home", [Sample.evB]); (u "work", [])] [] [u "B"])
    [ {| succeeded := 1; failed := 1 |}; {| succeeded := 1; failed := 0 |} ])
    as H.
  cbv zeta in H. destruct H as (_ & Hsel & _ & _ & _ & Hrefresh).
  - refine (AllReturned_cons MemoryApi.Server MemoryApi.deleteEvents
              Sample.refusesB (u "home") [u "A"; u "B"]
              [(u "work", [u "C"])] {| succeeded := 1; failed := 1 |}
              (Sample.server
                 [(u "home", [Sample.evB]); (u "work", [Sample.evC])]
                 [] [u "B"])
              [ {| succeeded := 1; failed := 0 |} ]
              (Sample.server [(u "home", [Sample.evB]); (u "work", [])]
                 [] [u "B"])
              eq_refl _).
    refine (AllReturned_cons MemoryApi.Server MemoryApi.deleteEvents
              (Sample.server
                 [(u "home", [Sample.evB]); (u "work", [Sample.evC])]
                 [] [u "B"])
              (u "work") [u "C"] [] {| succeeded := 1; failed := 0 |}
              (Sample.server [(u "home", [Sample.evB]); (u "work", [])]
                 [] [u "B"])
              [] _ eq_refl _).
    apply AllReturned_nil.
  - split; [exact Hsel|].
    destruct (Hrefresh
      (Sample.server [(u "home", [Sample.evB]); (u "work", [])] [] [u "B"])
      [CallGetEvents (u "home") 100 (u "2025-06-01")
         (Some (u "2025-06-15"));
       CallGetEvents (u "work") 100 (u "2025-06-01")
         (Some (u "2025-06-15"))]
      [Sample.evB]) as (Hev & Htoast & _);
      [discriminate | reflexivity |].
    split; [exact Htoast | exact Hev].
Defined.

(* ================================================================== *)
(** ** Further examples on the concrete runtime *)

(** The letter a typed into the search input, Ctrl held: no handler. *)
Lemma keyboard_typing_example :
  KeyboardShortcuts.handleKeyDown
    (dashboardShortcuts Latin1.normalizeNFD Latin1.toLowerCase
       Latin1.stripHtml)
    (SampleKeys.press (u "a") true (u "INPUT"))
    (SampleKeys.screen Sample.hiddenMark false false)
  = (SampleKeys.screen Sample.hiddenMark false false, false).
Proof.
  apply keyboard_typing_is_not_hijacked.
  - reflexivity.
  - discriminate.
  - intros [_ H]. discriminate H.
Defined.

(** Ctrl+A on the page, one hidden mark and one visible event: the
    marks change, and the conditions of the shortcut hold. *)
Lemma keydown_select_all_example :
  KeyboardShortcuts.isMod (SampleKeys.press (u "a") true (u "BODY")) = true
  /\ KeyboardShortcuts.key (SampleKeys.press (u "a") true (u "BODY")) = u "a"
  /\ KeyboardShortcuts.isInputFocused
       (SampleKeys.press (u "a") true (u "BODY")) = false
  /\ loading (SampleKeys.closed Sample.hiddenMark) = false
  /\ visibleEvents Latin1.normalizeNFD Latin1.toLowerCase Latin1.stripHtml
       (SampleKeys.closed Sample.hiddenMark) <> [].
Proof.
  apply (keydown_changes_selection_by_select_all_only
           Latin1.normalizeNFD Latin1.toLowerCase Latin1.stripHtml
           (SampleKeys.screen (SampleKeys.closed Sample.hiddenMark)
              false false)).
  vm_compute. discriminate.
Defined.

(** Escape with the delete confirmation and the About dialog open: the
    confirmation closes, the About dialog stays. *)
Lemma escape_example :
  showDeleteModal
    (dash (fst (onKeyDown Latin1.normalizeNFD Latin1.toLowerCase
                  Latin1.stripHtml
                  (SampleKeys.screen Sample.hiddenMark true false)
                  (SampleKeys.press (u "Escape") false (u "INPUT")))))
  = false
  /\ showAbout
       (fst (onKeyDown Latin1.normalizeNFD Latin1.toLowerCase
               Latin1.stripHtml
               (SampleKeys.screen Sample.hiddenMark true false)
               (SampleKeys.press (u "Escape") false (u "INPUT"))))
     = true.
Proof.
  pose proof (escape_closes_the_topmost_modal
    Latin1.normalizeNFD Latin1.toLowerCase Latin1.stripHtml
    (SampleKeys.screen Sample.hiddenMark true false)
    (SampleKeys.press (u "Escape") false (u "INPUT")) eq_refl) as H.
  cbv zeta in H. destruct H as (_ & H & _).
  destruct (H eq_refl) as (Hd & Ha & _). split; [exact Hd | exact Ha].
Defined.

(** Backspace on the page with one mark opens the confirmation. *)
Lemma delete_key_example :
  showDeleteModal
    (dash (fst (onKeyDown Latin1.normalizeNFD Latin1.toLowerCase
                  Latin1.stripHtml
                  (SampleKeys.screen (SampleKeys.closed Sample.hiddenMark)
                     false false)
                  (SampleKeys.press (u "Backspace") false (u "BODY")))))
  = true.
Proof.
  apply (proj2 (delete_key_needs_a_selection
    Latin1.normalizeNFD Latin1.toLowerCase Latin1.stripHtml
    (SampleKeys.screen (SampleKeys.closed Sample.hiddenMark) false false)
    (SampleKeys.press (u "Backspace") false (u "BODY")) eq_refl)).
  split; [right; reflexivity|]. split; [reflexivity | discriminate].
Defined.

(** Select-all twice from no marks: a and x, then nothing. *)
Lemma select_all_twice_example :
  selectedIds
    (handleSelectAll Latin1.normalizeNFD Latin1.toLowerCase Latin1.stripHtml
       SampleKeys.nothingMarked) = [u "a"; u "x"]
  /\ selectedIds
       (handleSelectAll Latin1.normalizeNFD Latin1.toLowerCase
          Latin1.stripHtml
          (handleSelectAll Latin1.normalizeNFD Latin1.toLowerCase
             Latin1.stripHtml SampleKeys.nothingMarked)) = [].
Proof.
  apply (select_all_twice_toggles Latin1.normalizeNFD Latin1.toLowerCase
           Latin1.stripHtml SampleKeys.nothingMarked eq_refl).
  repeat constructor; simpl; intuition discriminate.
Defined.

(** One of the two visible events marked: select-all marks both. *)
Lemma select_all_within_view_example :
  spec_selectAll [u "x"] [u "a"; u "x"]
    (selectedIds
       (handleSelectAll Latin1.normalizeNFD Latin1.toLowerCase
          Latin1.stripHtml Sample.oneOfTwoMarked)).
Proof.
  apply (select_all_within_view Latin1.normalizeNFD Latin1.toLowerCase
           Latin1.stripHtml Sample.oneOfTwoMarked).
  - repeat constructor; simpl; intuition discriminate.
  - repeat constructor; simpl; intuition discriminate.
  - intros x [<- | []]. right. left. reflexivity.
Defined.

(** Two calendars fetched: two requests, four events in the aggregate,
    the toast untouched. *)
Lemma load_events_example :
  snd (loadEvents MemoryApi.Server MemoryApi.getEvents codeUnitCompare
         (Sample.twoCalendars []) (Sample.twoCalendars [])
         Sample.nineServer)
  = [CallGetEvents (u "home") 100 (u "2025-06-01") (Some (u "2025-06-15"));
     CallGetEvents (u "work") 100 (u "2025-06-01") (Some (u "2025-06-15"))]
  /\ Permutation
       [Sample.nine; Sample.lunch; Sample.standup; Sample.holiday]
       (events
          (fst (fst (loadEvents MemoryApi.Server MemoryApi.getEvents
                       codeUnitCompare (Sample.twoCalendars [])
                       (Sample.twoCalendars []) Sample.nineServer)))).
Proof.
  pose proof (load_events_tags_what_it_fetches
    MemoryApi.Server MemoryApi.getEvents codeUnitCompare
    (Sample.twoCalendars []) (Sample.twoCalendars []) Sample.nineServer
    Sample.nineServer
    [[Sample.nine; Sample.lunch]; [Sample.standup; Sample.holiday]]) as H.
  cbv zeta in H. destruct H as (Htr & _ & Hperm & _).
  - discriminate.
  - refine (AllFetched_cons MemoryApi.Server MemoryApi.getEvents
              (Sample.twoCalendars []) Sample.nineServer (u "home")
              [u "work"] [Sample.nine; Sample.lunch] Sample.nineServer
              [[Sample.standup; Sample.holiday]] Sample.nineServer
              eq_refl _).
    refine (AllFetched_cons MemoryApi.Server MemoryApi.getEvents
              (Sample.twoCalendars []) Sample.nineServer (u "work")
              [] [Sample.standup; Sample.holiday] Sample.nineServer
              [] Sample.nineServer eq_refl _).
    apply AllFetched_nil.
  - split; [exact Htr | exact Hperm].
Defined.

(** The second calendar's fetch is rejected with an expired token: the
    aggregate on display stays, the logout is scheduled. *)
Lemma load_events_failure_example :
  events
    (fst (fst (loadEvents MemoryApi.Server MemoryApi.getEvents
                 codeUnitCompare (Sample.twoCalendars [Sample.lunch])
                 (Sample.twoCalendars [Sample.lunch])
                 SampleKeys.rejectsWork)))
  = [Sample.lunch]
  /\ snd (loadEvents MemoryApi.Server MemoryApi.getEvents codeUnitCompare
            (Sample.twoCalendars [Sample.lunch])
            (Sample.twoCalendars [Sample.lunch]) SampleKeys.rejectsWork)
     = [CallGetEvents (u "home") 100 (u "2025-06-01")
          (Some (u "2025-06-15"));
        CallGetEvents (u "work") 100 (u "2025-06-01")
          (Some (u "2025-06-15"));
        ScheduleLogout].
Proof.
  pose proof (load_events_failure_keeps_aggregate
    MemoryApi.Server MemoryApi.getEvents codeUnitCompare
    (Sample.twoCalendars [Sample.lunch]) (Sample.twoCalendars [Sample.lunch])
    SampleKeys.rejectsWork SampleKeys.rejectsWork SampleKeys.rejectsWork
    [u "home"] [] (u "work") [[Sample.nine]] MemoryApi.tokenExpired
    eq_refl) as H.
  cbv zeta in H. destruct H as (Hev & _ & Htr & _).
  - refine (AllFetched_cons MemoryApi.Server MemoryApi.getEvents
              (Sample.twoCalendars [Sample.lunch]) SampleKeys.rejectsWork
              (u "home") [] [Sample.nine] SampleKeys.rejectsWork
              [] SampleKeys.rejectsWork eq_refl _).
    apply AllFetched_nil.
  - reflexivity.
  - split; [exact Hev | exact Htr].
Defined.

(** The fetched calendars of the sample: the primary calendar is the
    first chip and the one selected. *)
Lemma load_calendars_example :
  selectedCalendarIds
    (fst (fst (loadCalendars MemoryApi.Server
                 (MemoryApi.getCalendars Sample.fetchedCalendars)
                 codeUnitCompare (Sample.twoCalendars [])
                 Sample.emptyServer)))
  = [u "home"].
Proof.
  pose proof (load_calendars_selects_first_chip
    MemoryApi.Server (MemoryApi.getCalendars Sample.fetchedCalendars)
    codeUnitCompare (Sample.twoCalendars []) Sample.emptyServer
    Sample.emptyServer Sample.fetchedCalendars
    codeUnitCompare_consistent eq_refl) as H.
  cbv zeta in H. destruct H as (_ & H & _).
  exact (proj1 (H Sample.home [Sample.renamed; Sample.work] eq_refl)).
Defined.

(** The calendar list cannot be fetched, for a reason other than the
    session: the screen does not change. *)
Lemma load_calendars_failure_example :
  fst (fst (loadCalendars MemoryApi.Server
              (SampleKeys.failingCalendars OtherError) codeUnitCompare
              Sample.hiddenMark Sample.emptyServer))
  = Sample.hiddenMark.
Proof.
  pose proof (load_calendars_failure_is_silent
    MemoryApi.Server (SampleKeys.failingCalendars OtherError)
    codeUnitCompare Sample.hiddenMark Sample.emptyServer
    Sample.emptyServer OtherError eq_refl) as H.
  cbv zeta in H. destruct H as (_ & _ & _ & _ & _ & H).
  exact (proj1 (H eq_refl)).
Defined.

(** A mark whose event is gone: no delete request is sent. *)
Lemma delete_of_stale_marks_example :
  ~ In (CallDeleteEvents (u "work") [u "gone"])
      (snd (handleDelete MemoryApi.Server MemoryApi.getEvents
              MemoryApi.deleteEvents codeUnitCompare SampleKeys.staleMark
              Sample.nineServer))
  /\ selectedIds
       (fst (fst (handleDelete MemoryApi.Server MemoryApi.getEvents
                    MemoryApi.deleteEvents codeUnitCompare
                    SampleKeys.staleMark Sample.nineServer)))
     = [].
Proof.
  pose proof (delete_of_stale_marks_sends_nothing
    MemoryApi.Server MemoryApi.getEvents MemoryApi.deleteEvents
    codeUnitCompare SampleKeys.staleMark Sample.nineServer) as H.
  cbv zeta in H. destruct H as (_ & Hnone & Hsel).
  - intros x [<- | []]. reflexivity.
  - split; [apply Hnone | exact Hsel].
Defined.

(** On the Latin-1 runtime "stand" narrows "st". *)
Lemma longer_query_example :
  In Sample.standup
    (filteredEvents Latin1.normalizeNFD Latin1.toLowerCase Latin1.stripHtml
       [Sample.lunch; Sample.standup] (u "st")).
Proof.
  apply (longer_query_narrows Latin1.normalizeNFD Latin1.toLowerCase
           Latin1.stripHtml [Sample.lunch; Sample.standup]
           (u "st") (u "stand")).
  - discriminate.
  - exists [], (u "and"). reflexivity.
  - vm_compute. left. reflexivity.
Defined.

(** The event with the empty title is hidden by the query "a". *)
Lemma event_without_text_example :
  ~ In Sample.untitled
      (filteredEvents Latin1.normalizeNFD Latin1.toLowerCase
         Latin1.stripHtml [Sample.untitled; Sample.standup] (u "a")).
Proof.
  apply event_without_text_never_matches.
  - discriminate.
  - right. reflexivity.
  - left. reflexivity.
  - left. reflexivity.
Defined.
